(** * Imhotep native FTGS core: key codec, session and worker wrappers

    A shallow embedding of

    - [cpp/include/btree/int.hpp]: the fixed-width key view [Int<int_t>]
      (instantiated as [Long = Int<int64_t>]);
    - [optimized/src/local_session.c]: [run_tgs_pass], [session_init],
      [worker_start_field], [worker_end_field], [worker_end_stream],
      [worker_init].

    C [int] and [long] values are carried as [Z]; none of the embedded
    functions computes with them beyond comparison, so no wrap-around
    occurs.  Memory is an array of bytes (the codec) or an array of
    stream structures (the worker); an access outside an array is
    undefined behaviour in C and is an explicit outcome here. *)

From Stdlib Require Import ZArith List String Ascii Bool Lia.
From Stdlib Require Import DecimalString.
From Stdlib Require Strings.Byte.
Import ListNotations.

Local Open Scope Z_scope.

(* ===================================================================== *)
(** ** Key codec ([int.hpp]) *)
(* ===================================================================== *)

Module BTree.

Definition byte : Type := Byte.byte.

(** The host byte order: [reinterpret_cast<const int_t*>] reads the
    object representation of the integer as the host stores it. *)
Inductive byte_order : Type := LittleEndian | BigEndian.

Definition byte_val (b : byte) : Z := Z.of_N (Byte.to_N b).

Definition byte_of_Z (x : Z) : byte :=
  match Byte.of_N (Z.to_N (x mod 256)) with
  | Some b => b
  | None => Byte.x00
  end.

(** [n] bytes of [x], least significant first. *)
Fixpoint le_split (n : nat) (x : Z) : list byte :=
  match n with
  | O => []
  | S n' => byte_of_Z x :: le_split n' (x / 256)
  end.

(** The unsigned value of a byte string, least significant first. *)
Fixpoint le_combine (bs : list byte) : Z :=
  match bs with
  | [] => 0
  | b :: bs' => byte_val b + 256 * le_combine bs'
  end.

(** Two's-complement reading of an unsigned [8 * n]-bit pattern. *)
Definition to_signed (n : nat) (u : Z) : Z :=
  if u <? 2 ^ (8 * Z.of_nat n - 1) then u else u - 2 ^ (8 * Z.of_nat n).

(** The object representation of a signed [n]-byte integer on a host
    of the given byte order (what storing an [int_t] leaves in
    memory). *)
Definition store (o : byte_order) (n : nat) (x : Z) : list byte :=
  match o with
  | LittleEndian => le_split n x
  | BigEndian => rev (le_split n x)
  end.

(** Reading a signed [n]-byte integer back from exactly [n] bytes. *)
Definition load (o : byte_order) (n : nat) (bs : list byte) : Z :=
  match o with
  | LittleEndian => to_signed n (le_combine bs)
  | BigEndian => to_signed n (le_combine (rev bs))
  end.

(** [class Int]: a view holding [_begin], modelled by the memory that
    starts at that address.  The view owns nothing and checks nothing. *)
Record Int : Type := mkInt { _begin : list byte }.

Section IntView.
(** [sizeof(int_t)] and the host byte order. *)
Variable sizeof_int_t : nat.
Variable host : byte_order.

(** [size_t length() const { return sizeof(int_t); }] *)
Definition length (_ : Int) : nat := sizeof_int_t.

(** [int_t operator()() const]: dereferences [_begin] as an [int_t].
    [None] when the backing region is shorter than [sizeof(int_t)]
    (the caller must exclude this; the codec does no bounds check). *)
Definition call (v : Int) : option Z :=
  if (List.length (_begin v) <? sizeof_int_t)%nat then None
  else Some (load host sizeof_int_t (firstn sizeof_int_t (_begin v))).

(** [bool operator<(const Int& rhs) const] *)
Definition lt (lhs rhs : Int) : option bool :=
  match call lhs, call rhs with
  | Some a, Some b => Some (a <? b)
  | _, _ => None
  end.

(** [bool operator>(const Int& rhs) const] *)
Definition gt (lhs rhs : Int) : option bool :=
  match call lhs, call rhs with
  | Some a, Some b => Some (a >? b)
  | _, _ => None
  end.

(** [bool operator==(const Int& rhs) const] *)
Definition eq (lhs rhs : Int) : option bool :=
  match call lhs, call rhs with
  | Some a, Some b => Some (a =? b)
  | _, _ => None
  end.
End IntView.

(** [typedef Int<int64_t> Long;] *)
Definition sizeof_int64_t : nat := 8.
Definition Long_call := call sizeof_int64_t.
Definition Long_lt := lt sizeof_int64_t.
Definition Long_gt := gt sizeof_int64_t.
Definition Long_eq := eq sizeof_int64_t.

Definition INT64_MIN : Z := - 2 ^ 63.
Definition INT64_MAX : Z := 2 ^ 63 - 1.
Definition in_int64 (x : Z) : Prop := INT64_MIN <= x <= INT64_MAX.

(** The all-ones and the all-zero eight-byte patterns. *)
Definition all_ones : list byte := repeat Byte.xff 8.
Definition all_zero : list byte := repeat Byte.x00 8.

End BTree.

(* ===================================================================== *)
(** ** Session and worker ([local_session.c]) *)
(* ===================================================================== *)

Module LocalSession.

(** [<errno.h>], Linux value. *)
Definition EBADF : Z := 9.

(** [#define CIRC_BUFFER_SIZE 64] and [#define PREFETCH_BUFFER_SIZE 64] *)
Definition CIRC_BUFFER_SIZE : Z := 64.
Definition PREFETCH_BUFFER_SIZE : Z := 64.

(* ------------------------------------------------------------------- *)
(** *** The structures of [imhotep_native.h] *)

(** Modelled from the spec: the declarations of [imhotep_native.h] are
    not among the sources.  An error is a code and a message; [code = 0]
    means no error is held. *)
Record runtime_err : Type := mk_err { code : Z; str : string }.

(** Modelled from the spec: the buffered socket of an output stream,
    with its transport handle, the bytes handed to the transport so
    far and the last captured error ([stream->socket.err]). *)
Record buffered_socket : Type :=
  mk_socket { socket_fd : Z; sent : list Byte.byte; err : runtime_err }.

Record ftgs_outstream : Type := mk_stream { socket : buffered_socket }.

(** [struct worker_desc]: the fields [local_session.c] uses.
    [out_streams] is the array [calloc] returned. *)
Record worker_desc : Type :=
  mk_worker { num_streams : Z;
              out_streams : list ftgs_outstream;
              error : runtime_err }.

(** Modelled from the spec: a Packed Table is a read-only layout
    template, the widths of its statistic columns, over per-document
    rows. *)
Record packed_table : Type :=
  mk_packed { pt_col_widths : list Z; pt_docs : list (Z * list Z) }.

(** Modelled from the spec: an Unpacked Table is a row-major buffer
    with a row count and a column layout; [ut_cells] are its rows. *)
Record unpacked_table : Type :=
  mk_unpacked { ut_num_rows : Z; ut_col_widths : list Z; ut_cells : list (list Z) }.

Definition zero_rows (num_rows : Z) (widths : list Z) : list (list Z) :=
  repeat (map (fun _ => 0) widths) (Z.to_nat num_rows).

(** Modelled from the spec: [unpacked_table_create] of the table
    adapter, absent from the sources; [num_rows] rows with the column
    layout of the template, all cells zero. *)
Definition unpacked_table_create (metric_desc : packed_table) (num_rows : Z)
  : unpacked_table :=
  mk_unpacked num_rows (pt_col_widths metric_desc)
              (zero_rows num_rows (pt_col_widths metric_desc)).

(** Modelled from the spec: [unpacked_table_copy_layout], absent from
    the sources; a fresh table of [num_rows] rows with the column
    layout of [table]. *)
Definition unpacked_table_copy_layout (table : unpacked_table) (num_rows : Z)
  : unpacked_table :=
  mk_unpacked num_rows (ut_col_widths table)
              (zero_rows num_rows (ut_col_widths table)).

(** Modelled from the spec: the ring buffer of [circ_buf.h], absent
    from the sources; a FIFO of group ids with a fixed capacity. *)
Record circular_buffer_int : Type :=
  mk_circ { cb_capacity : Z; cb_items : list Z }.

Definition circular_buffer_int_alloc (capacity : Z) : circular_buffer_int :=
  mk_circ capacity [].

(** [calloc(nmemb, sizeof(uint32_t))]: [nmemb] zeroed words.  A negative
    [int] converts to a [size_t] too large to allocate and gives [NULL]
    ([None]); exhaustion of memory is not modelled. *)
Definition calloc_uint32 (nmemb : Z) : option (list Z) :=
  if nmemb <? 0 then None else Some (repeat 0 (Z.to_nat nmemb)).

(** [struct session_desc] *)
Record session_desc : Type :=
  mk_session { num_groups : Z;
               num_stats : Z;
               only_binary_metrics : Z;
               grp_stats : unpacked_table;
               temp_buf : unpacked_table;
               grp_buf : circular_buffer_int;
               nz_grps_buf : option (list Z) }.

Definition set_num_groups (s : session_desc) (v : Z) : session_desc :=
  mk_session v (num_stats s) (only_binary_metrics s) (grp_stats s) (temp_buf s)
             (grp_buf s) (nz_grps_buf s).
Definition set_num_stats (s : session_desc) (v : Z) : session_desc :=
  mk_session (num_groups s) v (only_binary_metrics s) (grp_stats s) (temp_buf s)
             (grp_buf s) (nz_grps_buf s).
Definition set_only_binary_metrics (s : session_desc) (v : Z) : session_desc :=
  mk_session (num_groups s) (num_stats s) v (grp_stats s) (temp_buf s)
             (grp_buf s) (nz_grps_buf s).
Definition set_grp_stats (s : session_desc) (v : unpacked_table) : session_desc :=
  mk_session (num_groups s) (num_stats s) (only_binary_metrics s) v (temp_buf s)
             (grp_buf s) (nz_grps_buf s).
Definition set_temp_buf (s : session_desc) (v : unpacked_table) : session_desc :=
  mk_session (num_groups s) (num_stats s) (only_binary_metrics s) (grp_stats s) v
             (grp_buf s) (nz_grps_buf s).
Definition set_grp_buf (s : session_desc) (v : circular_buffer_int) : session_desc :=
  mk_session (num_groups s) (num_stats s) (only_binary_metrics s) (grp_stats s)
             (temp_buf s) v (nz_grps_buf s).
Definition set_nz_grps_buf (s : session_desc) (v : option (list Z)) : session_desc :=
  mk_session (num_groups s) (num_stats s) (only_binary_metrics s) (grp_stats s)
             (temp_buf s) (grp_buf s) v.

(* ------------------------------------------------------------------- *)
(** *** Session lifecycle *)

(** [static unpacked_table_ptr allocate_grp_stats(session, metric_desc)]:
    returns the group-stats table and stores the scratch table in
    [session->temp_buf]. *)
Definition allocate_grp_stats (session : session_desc) (metric_desc : packed_table)
  : unpacked_table * session_desc :=
  let grp_stats := unpacked_table_create metric_desc (num_groups session) in
  let session := set_temp_buf session
                   (unpacked_table_copy_layout grp_stats PREFETCH_BUFFER_SIZE) in
  (grp_stats, session).

(** [void session_init(session, n_groups, n_stats, only_binary_metrics,
    sample_table)] *)
Definition session_init (session : session_desc) (n_groups n_stats : Z)
           (only_binary_metrics : Z) (sample_table : packed_table) : session_desc :=
  let session := set_num_groups session n_groups in
  let session := set_num_stats session n_stats in
  let session := set_only_binary_metrics session only_binary_metrics in
  let '(t, session) := allocate_grp_stats session sample_table in
  let session := set_grp_stats session t in
  let session := set_grp_buf session (circular_buffer_int_alloc CIRC_BUFFER_SIZE) in
  set_nz_grps_buf session (calloc_uint32 n_groups).

(* ------------------------------------------------------------------- *)
(** *** Text of the error messages *)

(** [%d] of [printf]. *)
Definition fmt_d (z : Z) : string := NilZero.string_of_int (Z.to_int z).

(** [snprintf(buf, size, ...)] of an already formatted text: at most
    [size - 1] characters are stored; with [size = 0] nothing is. *)
Definition snprintf (old : string) (size : nat) (text : string) : string :=
  match size with
  | O => old
  | S n => substring 0 n text
  end.

(** Does [needle] occur in [hay]? *)
Fixpoint contains (needle hay : string) : bool :=
  String.prefix needle hay
  || match hay with
     | EmptyString => false
     | String _ rest => contains needle rest
     end.

Definition invalid_socket_long (stream_num n : Z) : string :=
  ("Invalid socket number. stream_num: " ++ fmt_d stream_num
     ++ " num_streams: " ++ fmt_d n)%string.

Definition invalid_socket_short : string := "Invalid socket number."%string.

(* ------------------------------------------------------------------- *)
(** *** Memory, calls to other units, and the monad *)

(** Modelled from the spec: the Pass Descriptor of the TGS operations
    (their unit is absent from the sources): the term, the shard list
    and the bound output stream.  [stream] is the pointer
    [&worker->out_streams[stream_num]], kept as its index. *)
Record tgs_desc (term_s : Type) : Type :=
  mk_tgs { term : term_s;
           desc_term_type : Z;
           desc_addresses : list string;
           desc_docs_per_shard : list Z;
           desc_shards : list packed_table;
           desc_num_shard : Z;
           stream : Z }.
Arguments mk_tgs {term_s}.
Arguments term {term_s}.
Arguments stream {term_s}.

(** What the sources call and do not define.  A stream writer receives
    one stream and gives back its result code and the stream as it
    leaves it.  [tgs_init] fills the descriptor from the worker, the
    term already constructed in it, the shard list, the stream pointer
    and the session.  The accumulation pass receives worker, session and
    descriptor and may change both worker and session. *)
Class Externals : Type :=
  { SIZE_ERR_STR : nat;      (* sizeof(worker->error.str) *)
    term_s : Type;
    term_init : Z -> Z -> string -> Z -> term_s;
    tgs_init :
      worker_desc -> term_s -> Z -> list string -> list Z -> list packed_table ->
      Z -> Z -> session_desc -> tgs_desc term_s;
    stream_init : ftgs_outstream -> Z -> ftgs_outstream;
    write_field_start : ftgs_outstream -> string -> Z -> Z -> Z * ftgs_outstream;
    write_field_end : ftgs_outstream -> Z * ftgs_outstream;
    write_stream_end : ftgs_outstream -> Z * ftgs_outstream;
    tgs_execute_pass :
      worker_desc -> session_desc -> tgs_desc term_s -> Z * worker_desc * session_desc }.

(** The calls a function makes into the other units, in order. *)
Inductive event : Type :=
| Call_start_timer (slot : Z)
| Call_end_timer (slot : Z)
| Call_term_init (term_type : Z)
| Call_tgs_init (stream : Z)
| Call_tgs_execute_pass (stream : Z)
| Call_tgs_destroy
| Call_term_destroy (term_type : Z)
| Call_stream_init (stream : Z)
| Call_stream_destroy (stream : Z)
| Call_write_field_start (stream : Z)
| Call_write_field_end (stream : Z)
| Call_write_stream_end (stream : Z).

Definition is_tgs_destroy (e : event) : bool :=
  match e with Call_tgs_destroy => true | _ => false end.
Definition is_term_destroy (e : event) : bool :=
  match e with Call_term_destroy _ => true | _ => false end.
(** The memory the functions work on, with the calls made so far. *)
Record world : Type :=
  mk_world { worker : worker_desc; session : session_desc; calls : list event }.

(** A run either returns a value in a new memory, or indexes the
    stream array (or the handle array) outside its bounds, which C
    leaves undefined. *)
Inductive outcome (A : Type) : Type :=
| Ok (a : A) (m : world)
| OutOfBounds (index : Z).
Arguments Ok {A}.
Arguments OutOfBounds {A}.

Definition M (A : Type) : Type := world -> outcome A.

Definition ret {A : Type} (a : A) : M A := fun m => Ok a m.

Definition bind {A B : Type} (c : M A) (k : A -> M B) : M B :=
  fun m => match c m with
           | Ok a m' => k a m'
           | OutOfBounds i => OutOfBounds i
           end.

Declare Scope session_scope.
Delimit Scope session_scope with session.
Notation "x <- c ;; k" := (bind c (fun x => k))
  (at level 61, c at next level, right associativity) : session_scope.
Notation "c ;; k" := (bind c (fun _ => k))
  (at level 61, right associativity) : session_scope.
Local Open Scope session_scope.

Definition get_worker : M worker_desc := fun m => Ok (worker m) m.
Definition put_worker (w : worker_desc) : M unit :=
  fun m => Ok tt (mk_world w (session m) (calls m)).
Definition get_session : M session_desc := fun m => Ok (session m) m.
Definition put_session (s : session_desc) : M unit :=
  fun m => Ok tt (mk_world (worker m) s (calls m)).
Definition call (e : event) : M unit :=
  fun m => Ok tt (mk_world (worker m) (session m) (calls m ++ [e])).
Definition undefined {A : Type} (index : Z) : M A := fun _ => OutOfBounds index.

(** [a[i]] on an array of known extent. *)
Definition index {A : Type} (a : list A) (i : Z) : option A :=
  if i <? 0 then None else nth_error a (Z.to_nat i).

Fixpoint update_nth {A : Type} (a : list A) (n : nat) (v : A) : list A :=
  match a, n with
  | [], _ => []
  | _ :: rest, O => v :: rest
  | x :: rest, S n' => x :: update_nth rest n' v
  end.

(** [a[i] = v]; callers establish [0 <= i < length a] by reading first. *)
Definition assign {A : Type} (a : list A) (i : Z) (v : A) : list A :=
  if i <? 0 then a else update_nth a (Z.to_nat i) v.

Definition stream_err (s : ftgs_outstream) : runtime_err := err (socket s).

Definition set_stream_err_code (s : ftgs_outstream) (c : Z) : ftgs_outstream :=
  mk_stream (mk_socket (socket_fd (socket s)) (sent (socket s))
                       (mk_err c (str (stream_err s)))).

Definition set_out_streams (w : worker_desc) (a : list ftgs_outstream) : worker_desc :=
  mk_worker (num_streams w) a (error w).
Definition set_num_streams (w : worker_desc) (n : Z) : worker_desc :=
  mk_worker n (out_streams w) (error w).
Definition set_error (w : worker_desc) (e : runtime_err) : worker_desc :=
  mk_worker (num_streams w) (out_streams w) e.

(** Reading [worker->out_streams[i]]. *)
Definition load_stream (i : Z) : M ftgs_outstream :=
  w <- get_worker ;;
  match index (out_streams w) i with
  | Some s => ret s
  | None => undefined i
  end.

(** Writing [worker->out_streams[i]]. *)
Definition store_stream (i : Z) (s : ftgs_outstream) : M unit :=
  w <- get_worker ;;
  match index (out_streams w) i with
  | Some _ => put_worker (set_out_streams w (assign (out_streams w) i s))
  | None => undefined i
  end.

(** [worker->error.code = c] *)
Definition store_error_code (c : Z) : M unit :=
  w <- get_worker ;;
  put_worker (set_error w (mk_err c (str (error w)))).

(** [worker->error = e] *)
Definition store_error (e : runtime_err) : M unit :=
  w <- get_worker ;;
  put_worker (set_error w e).

(** Calling a stream writer on [&worker->out_streams[i]]: the writer
    works on that element in place. *)
Definition with_stream (i : Z) (e : event)
           (writer : ftgs_outstream -> Z * ftgs_outstream) : M Z :=
  s <- load_stream i ;;
  call e ;;
  let '(rc, s') := writer s in
  store_stream i s' ;;
  ret rc.

Section Code.
Context {ext : Externals}.

(** [snprintf(worker->error.str, sizeof(worker->error.str), ...)] *)
Definition snprintf_error_str (text : string) : M unit :=
  w <- get_worker ;;
  put_worker (set_error w (mk_err (code (error w))
                                  (snprintf (str (error w)) SIZE_ERR_STR text))).

(** [int run_tgs_pass(worker, session, term_type, int_term,
    string_term, string_term_len, addresses, docs_per_shard, shards,
    num_shard, stream_num)].  [start_timer], [end_timer],
    [term_init], [tgs_init], [tgs_destroy] and [term_destroy] work on
    the timing slots and on the local descriptor, which the memory
    here does not hold: they are recorded as calls.  The pointer
    [&worker->out_streams[stream_num]] is the index [stream_num]. *)
Definition run_tgs_pass
           (term_type int_term : Z) (string_term : string) (string_term_len : Z)
           (addresses : list string) (docs_per_shard : list Z)
           (shards : list packed_table) (num_shard stream_num : Z) : M Z :=
  call (Call_start_timer 3) ;;
  call (Call_term_init term_type) ;;
  let desc_term := term_init term_type int_term string_term string_term_len in
  (* find the stream data struct by index *)
  let stream := stream_num in
  (* init the tsg struct *)
  w <- get_worker ;;
  s <- get_session ;;
  call (Call_tgs_init stream) ;;
  let desc :=
    tgs_init w desc_term term_type addresses docs_per_shard shards num_shard stream s in
  (* do the Term Group Stats accumulation pass *)
  w <- get_worker ;;
  s <- get_session ;;
  call (Call_tgs_execute_pass (LocalSession.stream desc)) ;;
  let '(err, w', s') := tgs_execute_pass w s desc in
  put_worker w' ;;
  put_session s' ;;
  (if err =? 0 then ret tt
   else
     st <- load_stream (LocalSession.stream desc) ;;
     if code (stream_err st) =? 0 then ret tt
     else store_error (stream_err st)) ;;
  (* clean up the tgs structure *)
  call Call_tgs_destroy ;;
  call (Call_term_destroy term_type) ;;
  call (Call_end_timer 3) ;;
  ret err.

(** [int worker_start_field(worker, field_name, len, term_type,
    stream_num)] *)
Definition worker_start_field (field_name : string) (len term_type stream_num : Z)
  : M Z :=
  w <- get_worker ;;
  if stream_num >=? num_streams w then
    store_error_code EBADF ;;
    snprintf_error_str (invalid_socket_long stream_num (num_streams w)) ;;
    ret (-1)
  else
    err <- with_stream stream_num (Call_write_field_start stream_num)
             (fun s => write_field_start s field_name len term_type) ;;
    if negb (err =? 0) then
      st <- load_stream stream_num ;;
      store_error (stream_err st) ;;
      st <- load_stream stream_num ;;
      store_stream stream_num (set_stream_err_code st 0) ;;
      ret err
    else ret 0.

(** [int worker_end_field(worker, stream_num)] *)
Definition worker_end_field (stream_num : Z) : M Z :=
  w <- get_worker ;;
  if stream_num >=? num_streams w then
    store_error_code EBADF ;;
    snprintf_error_str invalid_socket_short ;;
    ret (-1)
  else
    err <- with_stream stream_num (Call_write_field_end stream_num) write_field_end ;;
    if err =? -1 then
      st <- load_stream stream_num ;;
      store_error (stream_err st) ;;
      st <- load_stream stream_num ;;
      store_stream stream_num (set_stream_err_code st 0) ;;
      ret (-1)
    else ret 0.

(** [int worker_end_stream(worker, stream_num)] *)
Definition worker_end_stream (stream_num : Z) : M Z :=
  w <- get_worker ;;
  if stream_num >=? num_streams w then
    store_error_code EBADF ;;
    snprintf_error_str invalid_socket_short ;;
    ret (-1)
  else
    err <- with_stream stream_num (Call_write_stream_end stream_num) write_stream_end ;;
    if err =? -1 then
      st <- load_stream stream_num ;;
      store_error (stream_err st) ;;
      st <- load_stream stream_num ;;
      store_stream stream_num (set_stream_err_code st 0) ;;
      ret (-1)
    else ret 0.

(** The zeroed stream structure [calloc] leaves. *)
Definition zero_stream : ftgs_outstream :=
  mk_stream (mk_socket 0 [] (mk_err 0 EmptyString)).

(** [calloc(num_sockets, sizeof(struct ftgs_outstream))]; no array
    ([NULL]) for a negative count. *)
Definition calloc_streams (nmemb : Z) : list ftgs_outstream :=
  repeat zero_stream (Z.to_nat nmemb).

(** The loop of [worker_init], [todo] iterations from index [i]. *)
Fixpoint worker_init_loop (socket_fds : list Z) (todo : nat) (i : Z) : M unit :=
  match todo with
  | O => ret tt
  | S todo' =>
      match index socket_fds i with
      | None => undefined i
      | Some fd =>
          st <- load_stream i ;;
          call (Call_stream_init i) ;;
          store_stream i (stream_init st fd) ;;
          worker_init_loop socket_fds todo' (i + 1)
      end
  end.

(** [void worker_init(worker, socket_fds, num_sockets)] *)
Definition worker_init (socket_fds : list Z) (num_sockets : Z) : M unit :=
  w <- get_worker ;;
  put_worker (set_num_streams w num_sockets) ;;
  w <- get_worker ;;
  put_worker (set_out_streams w (calloc_streams num_sockets)) ;;
  worker_init_loop socket_fds (Z.to_nat num_sockets) 0.

End Code.

(** A stream index the worker owns. *)
Definition valid_index (w : worker_desc) (i : Z) : Prop :=
  0 <= i < num_streams w.

(** The stream count is the extent of the array, as [worker_init]
    leaves it. *)
Definition worker_ok (w : worker_desc) : Prop :=
  num_streams w = Z.of_nat (List.length (out_streams w)).

(* ------------------------------------------------------------------- *)
(** *** The memories and call lists the functions produce *)

Section Results.
Context {ext : Externals}.

(** The memory an invalid-index rejection leaves: only
    [worker->error] differs. *)
Definition rejected (m : world) (text : string) : world :=
  mk_world (set_error (worker m)
              (mk_err EBADF (snprintf (str (error (worker m))) SIZE_ERR_STR text)))
           (session m) (calls m).

(** The memory a stream writer leaves when the wrapper reports
    success. *)
Definition delegated (m : world) (i : Z) (e : event) (s' : ftgs_outstream) : world :=
  mk_world (set_out_streams (worker m) (assign (out_streams (worker m)) i s'))
           (session m) (calls m ++ [e]).

(** The memory after the hand-over of a stream error: the worker
    holds the error of [s'], the stream has its code cleared. *)
Definition handed_over (m : world) (i : Z) (e : event) (s' : ftgs_outstream) : world :=
  mk_world (mk_worker (num_streams (worker m))
                      (assign (out_streams (worker m)) i (set_stream_err_code s' 0))
                      (stream_err s'))
           (session m) (calls m ++ [e]).

(** The descriptor [run_tgs_pass] hands to the accumulation pass. *)
Definition pass_desc (m : world) (term_type int_term : Z) (string_term : string)
           (string_term_len : Z) (addresses : list string)
           (docs_per_shard : list Z) (shards : list packed_table)
           (num_shard stream_num : Z) : tgs_desc term_s :=
  tgs_init (worker m) (term_init term_type int_term string_term string_term_len)
           term_type addresses docs_per_shard shards num_shard stream_num (session m).

(** The calls of one [run_tgs_pass], in order: [tgs_init] receives the
    pointer to [out_streams[stream_num]], the pass the descriptor, whose
    stream is [bound]. *)
Definition pass_calls (term_type stream_num bound : Z) : list event :=
  [Call_start_timer 3; Call_term_init term_type; Call_tgs_init stream_num;
   Call_tgs_execute_pass bound;
   Call_tgs_destroy; Call_term_destroy term_type; Call_end_timer 3].

(** What [run_tgs_pass] leaves in [worker->error] after a failed
    pass on the stream [st]. *)
Definition after_failure (w' : worker_desc) (st : ftgs_outstream) : worker_desc :=
  if code (stream_err st) =? 0 then w' else set_error w' (stream_err st).

End Results.

(** What the hand-over of a stream error establishes between the memory
    before ([m]) and after ([m']): the worker holds the error the writer
    left on the stream [s'], the stream keeps everything but its error
    code, which is 0, and nothing else moved. *)
Definition hand_off (m m' : world) (i : Z) (s' : ftgs_outstream) : Prop :=
  error (worker m') = stream_err s'
  /\ index (out_streams (worker m')) i = Some (set_stream_err_code s' 0)
  /\ code (stream_err (set_stream_err_code s' 0)) = 0
  /\ (forall j, j <> i ->
        index (out_streams (worker m')) j = index (out_streams (worker m)) j)
  /\ num_streams (worker m') = num_streams (worker m)
  /\ session m' = session m.

(* ------------------------------------------------------------------- *)
(** *** A scripted environment *)

(** Concrete stand-ins for the absent units, to run the code on
    explicit inputs.  Each writer answers a fixed code; on [0] it sends
    one marker byte, otherwise it captures [captured] on the stream.
    [tgs_init] binds its arguments into the descriptor, and the
    accumulation pass acts as a writer on the stream its descriptor is
    bound to. *)
Definition send (s : ftgs_outstream) (b : Byte.byte) : ftgs_outstream :=
  mk_stream (mk_socket (socket_fd (socket s)) (sent (socket s) ++ [b]) (stream_err s)).

Definition capture (s : ftgs_outstream) (e : runtime_err) : ftgs_outstream :=
  mk_stream (mk_socket (socket_fd (socket s)) (sent (socket s)) e).

Definition scripted_writer (rc : Z) (b : Byte.byte) (captured : runtime_err)
           (s : ftgs_outstream) : Z * ftgs_outstream :=
  (rc, if rc =? 0 then send s b else capture s captured).

Definition scripted_pass (rc : Z) (captured : runtime_err)
           (w : worker_desc) (s : session_desc) (desc : tgs_desc Z)
  : Z * worker_desc * session_desc :=
  match index (out_streams w) (stream desc) with
  | Some st =>
      (rc, set_out_streams w (assign (out_streams w) (stream desc)
                                     (snd (scripted_writer rc Byte.x04 captured st))), s)
  | None => (rc, w, s)
  end.

Definition scripted (rc_start rc_end rc_close rc_pass : Z) (captured : runtime_err)
  : Externals :=
  {| SIZE_ERR_STR := 256;
     term_s := Z;
     term_init := fun _ int_term _ _ => int_term;
     tgs_init := fun _ desc_term term_type addresses docs_per_shard shards num_shard
                     stream _ =>
                   mk_tgs desc_term term_type addresses docs_per_shard shards num_shard
                          stream;
     stream_init := fun s fd => mk_stream (mk_socket fd (sent (socket s)) (stream_err s));
     write_field_start := fun s _ _ _ => scripted_writer rc_start Byte.x01 captured s;
     write_field_end := scripted_writer rc_end Byte.x02 captured;
     write_stream_end := scripted_writer rc_close Byte.x03 captured;
     tgs_execute_pass := scripted_pass rc_pass captured |}.

Definition no_error : runtime_err := mk_err 0 EmptyString.
Definition broken_pipe : runtime_err := mk_err 32 "Broken pipe".

Definition idle_stream (fd : Z) : ftgs_outstream := mk_stream (mk_socket fd [] no_error).

Definition empty_table : unpacked_table := mk_unpacked 0 [] [].

Definition blank_session : session_desc :=
  mk_session 0 0 0 empty_table empty_table (mk_circ 0 []) None.

(** A worker with two idle streams and no error, and its memory. *)
Definition two_streams : worker_desc :=
  mk_worker 2 [idle_stream 7; idle_stream 8] no_error.

Definition start_world : world := mk_world two_streams blank_session [].

End LocalSession.

(* ===================================================================== *)
(** ** The pair view of [int.hpp] and the end of a worker's life *)
(* ===================================================================== *)

Module BTreePair.
Import BTree.

(** [sizeof(std::pair<int64_t, int64_t>)]: the two members, [first] at
    offset 0 and [second] at offset 8. *)
Definition sizeof_pair : nat := 16.

(** [operator<] of [std::pair]: by [first], then by [second]. *)
Definition pair_lt (x y : Z * Z) : bool :=
  (fst x <? fst y) || (negb (fst y <? fst x) && (snd x <? snd y)).

(** [operator>] of [std::pair]: [y < x]. *)
Definition pair_gt (x y : Z * Z) : bool := pair_lt y x.

(** [operator==] of [std::pair]: both members equal. *)
Definition pair_eq (x y : Z * Z) : bool :=
  (fst x =? fst y) && (snd x =? snd y).

Section PairView.
Variable host : byte_order.

(** [size_t length() const] at [int_t = std::pair<int64_t, int64_t>] *)
Definition LongPair_length (_ : Int) : nat := sizeof_pair.

(** [int_t operator()() const] at the pair type: both members are read
    from the region; [None] when it is shorter than the pair. *)
Definition LongPair_call (v : Int) : option (Z * Z) :=
  if (List.length (_begin v) <? sizeof_pair)%nat then None
  else Some (load host sizeof_int64_t (firstn sizeof_int64_t (_begin v)),
             load host sizeof_int64_t
                  (firstn sizeof_int64_t (skipn sizeof_int64_t (_begin v)))).

(** [bool operator<(const Int& rhs) const] at the pair type *)
Definition LongPair_lt (lhs rhs : Int) : option bool :=
  match LongPair_call lhs, LongPair_call rhs with
  | Some a, Some b => Some (pair_lt a b)
  | _, _ => None
  end.

(** [bool operator>(const Int& rhs) const] at the pair type *)
Definition LongPair_gt (lhs rhs : Int) : option bool :=
  match LongPair_call lhs, LongPair_call rhs with
  | Some a, Some b => Some (pair_gt a b)
  | _, _ => None
  end.

(** [bool operator==(const Int& rhs) const] at the pair type *)
Definition LongPair_eq (lhs rhs : Int) : option bool :=
  match LongPair_call lhs, LongPair_call rhs with
  | Some a, Some b => Some (pair_eq a b)
  | _, _ => None
  end.

(** The object representation of a pair: [first], then [second]. *)
Definition store_pair (p : Z * Z) : list byte :=
  store host sizeof_int64_t (fst p) ++ store host sizeof_int64_t (snd p).

End PairView.

End BTreePair.

Module WorkerLifecycle.
Import LocalSession.
Local Open Scope session_scope.

Section Destroy.
(** [stream_destroy] of [remote_output.h], absent from the sources: it
    receives one stream and leaves it released. *)
Variable stream_destroy : ftgs_outstream -> ftgs_outstream.

(** The loop of [worker_destroy], [todo] iterations from index [i];
    each call of [stream_destroy] is recorded with the index it is made
    on. *)
Fixpoint worker_destroy_loop (todo : nat) (i : Z) : M unit :=
  match todo with
  | O => ret tt
  | S todo' =>
      st <- load_stream i ;;
      call (Call_stream_destroy i) ;;
      store_stream i (stream_destroy st) ;;
      worker_destroy_loop todo' (i + 1)
  end.

(** [free(worker->out_streams)]: the pointer stays in the worker, the
    array it points to is gone, so no element can be read any more. *)
Definition free_out_streams : M unit :=
  w <- get_worker ;;
  put_worker (set_out_streams w []).

(** [void worker_destroy(worker)] *)
Definition worker_destroy : M unit :=
  w <- get_worker ;;
  worker_destroy_loop (Z.to_nat (num_streams w)) 0 ;;
  free_out_streams.

End Destroy.

(** The stream indices [first, first + count). *)
Definition indices (first count : nat) : list Z := map Z.of_nat (seq first count).

(** The worker keeps its stream count and the extent of its array, and
    the session is the same. *)
Definition same_shape (m m' : world) : Prop :=
  num_streams (worker m') = num_streams (worker m)
  /\ List.length (out_streams (worker m')) = List.length (out_streams (worker m))
  /\ session m' = session m.

(** Every stream but the one at [i] is as before. *)
Definition others_untouched (m m' : world) (i : Z) : Prop :=
  forall j, j <> i -> index (out_streams (worker m')) j = index (out_streams (worker m)) j.

End WorkerLifecycle.

(* ===================================================================== *)
(** ** Properties of the key codec *)
(* ===================================================================== *)

Module BTreeFacts.
Import BTree.

Lemma byte_val_range (b : byte) : 0 <= byte_val b < 256.
Proof.
  unfold byte_val. pose proof (Byte.to_N_bounded b) as H.
  apply N2Z.inj_le in H. simpl in H. lia.
Qed.

Lemma byte_val_of_Z (x : Z) : byte_val (byte_of_Z x) = x mod 256.
Proof.
  unfold byte_val, byte_of_Z.
  assert (Hr : 0 <= x mod 256 < 256) by (apply Z.mod_pos_bound; lia).
  destruct (Byte.of_N (Z.to_N (x mod 256))) as [b|] eqn:E.
  - apply Byte.to_of_N in E. rewrite E. rewrite Z2N.id; lia.
  - apply Byte.of_N_None_iff in E.
    assert (Z.of_N 255 < Z.of_N (Z.to_N (x mod 256))) by (apply N2Z.inj_lt; exact E).
    rewrite Z2N.id in H by lia. simpl in H. lia.
Qed.

Lemma le_split_length (n : nat) : forall x, List.length (le_split n x) = n.
Proof. induction n as [|n IH]; intros x; simpl; [reflexivity | now rewrite IH]. Qed.

Lemma le_combine_split (n : nat) :
  forall x, le_combine (le_split n x) = x mod 2 ^ (8 * Z.of_nat n).
Proof.
  induction n as [|n IH]; intros x.
  - simpl. now rewrite Z.mod_1_r.
  - cbn [le_split le_combine]. rewrite byte_val_of_Z, IH.
    replace (8 * Z.of_nat (S n)) with (8 + 8 * Z.of_nat n) by lia.
    rewrite Z.pow_add_r by lia. change (2 ^ 8) with 256.
    rewrite Z.rem_mul_r by lia. reflexivity.
Qed.

Lemma to_signed_wrap (n : nat) (x : Z) :
  (0 < n)%nat ->
  - 2 ^ (8 * Z.of_nat n - 1) <= x < 2 ^ (8 * Z.of_nat n - 1) ->
  to_signed n (x mod 2 ^ (8 * Z.of_nat n)) = x.
Proof.
  intros Hn Hx. unfold to_signed.
  set (w := 8 * Z.of_nat n) in *.
  assert (Hw : 2 ^ w = 2 * 2 ^ (w - 1)).
  { replace w with (1 + (w - 1)) at 1 by lia.
    rewrite Z.pow_add_r by lia. reflexivity. }
  assert (Hp : 0 < 2 ^ (w - 1)) by (apply Z.pow_pos_nonneg; lia).
  destruct (Z.neg_nonneg_cases x) as [Hneg | Hpos].
  - replace (x mod 2 ^ w) with (x + 2 ^ w).
    + destruct (Z.ltb_spec (x + 2 ^ w) (2 ^ (w - 1))); lia.
    + apply Z.mod_unique with (q := -1); lia.
  - rewrite Z.mod_small by lia.
    destruct (Z.ltb_spec x (2 ^ (w - 1))); lia.
Qed.

(** Storing then loading gives the value back, on either byte order. *)
Lemma load_store (o : byte_order) (n : nat) (x : Z) :
  (0 < n)%nat ->
  - 2 ^ (8 * Z.of_nat n - 1) <= x < 2 ^ (8 * Z.of_nat n - 1) ->
  load o n (store o n x) = x.
Proof.
  intros Hn Hx. destruct o; unfold load, store.
  - rewrite le_combine_split. now apply to_signed_wrap.
  - rewrite rev_involutive, le_combine_split. now apply to_signed_wrap.
Qed.

Lemma store_length (o : byte_order) (n : nat) (x : Z) :
  List.length (store o n x) = n.
Proof.
  destruct o; unfold store; [| rewrite length_rev]; apply le_split_length.
Qed.

(** A view whose region starts with the stored value decodes to it,
    whatever memory follows. *)
Lemma Long_call_store (o : byte_order) (x : Z) (rest : list byte) :
  in_int64 x ->
  Long_call o (mkInt (store o sizeof_int64_t x ++ rest)) = Some x.
Proof.
  intros Hx. unfold Long_call, call. cbn [_begin].
  rewrite length_app, store_length.
  destruct (Nat.ltb_spec (sizeof_int64_t + List.length rest) sizeof_int64_t) as [H|_];
    [lia|].
  rewrite firstn_app, store_length, Nat.sub_diag, firstn_O, app_nil_r.
  rewrite firstn_all2 by (rewrite store_length; lia).
  f_equal. apply load_store; [unfold sizeof_int64_t; lia|].
  unfold in_int64, INT64_MIN, INT64_MAX, sizeof_int64_t in *.
  change (8 * Z.of_nat 8 - 1) with 63. lia.
Qed.

End BTreeFacts.

Module BTreeClaims.
Import BTree BTreeFacts.

(** C7: on either host byte order, for all 64-bit signed [a] and [b],
    [operator<] on views over the stored [a] and the stored [b]
    (followed by any memory) answers [a < b], so the order of the
    views is the order of the signed integers, negatives included; and
    the view over the all-ones pattern decodes to [-1], the view over
    the all-zero pattern to [0], and the first compares less than the
    second. *)
Theorem Long_lt_agrees_with_signed_order :
  forall (o : byte_order) (a b : Z) (ra rb : list byte),
    in_int64 a -> in_int64 b ->
    Long_lt o (mkInt (store o sizeof_int64_t a ++ ra))
              (mkInt (store o sizeof_int64_t b ++ rb)) = Some (a <? b)
    /\ (Long_lt o (mkInt (store o sizeof_int64_t a ++ ra))
                  (mkInt (store o sizeof_int64_t b ++ rb)) = Some true <-> a < b)
    /\ store o sizeof_int64_t (-1) = all_ones
    /\ store o sizeof_int64_t 0 = all_zero
    /\ Long_call o (mkInt all_ones) = Some (-1)
    /\ Long_call o (mkInt all_zero) = Some 0
    /\ Long_lt o (mkInt all_ones) (mkInt all_zero) = Some true
    /\ Long_lt o (mkInt all_zero) (mkInt all_ones) = Some false.
Proof.
  intros o a b ra rb Ha Hb.
  assert (E : Long_lt o (mkInt (store o sizeof_int64_t a ++ ra))
                        (mkInt (store o sizeof_int64_t b ++ rb)) = Some (a <? b)).
  { unfold Long_lt, lt.
    fold (Long_call o (mkInt (store o sizeof_int64_t a ++ ra))).
    fold (Long_call o (mkInt (store o sizeof_int64_t b ++ rb))).
    now rewrite !Long_call_store. }
  split; [exact E|]. split.
  { rewrite E. split.
    - intros H. injection H as H. now apply Z.ltb_lt.
    - intros H. f_equal. now apply Z.ltb_lt. }
  destruct o; repeat split; vm_compute; reflexivity.
Qed.

Lemma Long_lt_agrees_with_signed_order_witness :
  in_int64 (-5) /\ in_int64 3
  /\ Long_lt LittleEndian
       (mkInt (store LittleEndian sizeof_int64_t (-5) ++ [Byte.x2a]))
       (mkInt (store LittleEndian sizeof_int64_t 3 ++ [])) = Some true.
Proof.
  assert (Ha : in_int64 (-5)) by (unfold in_int64, INT64_MIN, INT64_MAX; lia).
  assert (Hb : in_int64 3) by (unfold in_int64, INT64_MIN, INT64_MAX; lia).
  split; [exact Ha|]. split; [exact Hb|].
  exact (proj1 (Long_lt_agrees_with_signed_order LittleEndian (-5) 3 [Byte.x2a] [] Ha Hb)).
Defined.

End BTreeClaims.

(* ===================================================================== *)
(** ** Arrays, text and the equations of the wrappers *)
(* ===================================================================== *)

Module LocalSessionFacts.
Import LocalSession.
Local Open Scope session_scope.

Lemma update_nth_same {A : Type} (a : list A) :
  forall n x v, nth_error a n = Some x -> nth_error (update_nth a n v) n = Some v.
Proof.
  induction a as [|y a IH]; intros [|n] x v H; simpl in *; try discriminate.
  - reflexivity.
  - eapply IH; eauto.
Qed.

Lemma update_nth_length {A : Type} (a : list A) :
  forall n v, List.length (update_nth a n v) = List.length a.
Proof.
  induction a as [|y a IH]; intros [|n] v; simpl; auto.
Qed.

Lemma update_nth_twice {A : Type} (a : list A) :
  forall n v v', update_nth (update_nth a n v) n v' = update_nth a n v'.
Proof.
  induction a as [|y a IH]; intros [|n] v v'; simpl; auto.
  now rewrite IH.
Qed.

Lemma update_nth_other {A : Type} (a : list A) :
  forall n k v, n <> k -> nth_error (update_nth a n v) k = nth_error a k.
Proof.
  induction a as [|y a IH]; intros [|n] [|k] v H; simpl; auto; try congruence.
Qed.

Lemma index_assign_same {A : Type} (a : list A) (i : Z) (x v : A) :
  index a i = Some x -> index (assign a i v) i = Some v.
Proof.
  unfold index, assign. destruct (i <? 0); [discriminate|].
  apply update_nth_same.
Qed.

Lemma index_assign_other {A : Type} (a : list A) (i j : Z) (v : A) :
  i <> j -> index (assign a i v) j = index a j.
Proof.
  unfold index, assign. intros H.
  destruct (Z.ltb_spec i 0); [reflexivity|].
  destruct (Z.ltb_spec j 0); [reflexivity|].
  apply update_nth_other. lia.
Qed.

Lemma assign_twice {A : Type} (a : list A) (i : Z) (v v' : A) :
  assign (assign a i v) i v' = assign a i v'.
Proof.
  unfold assign. destruct (i <? 0); [reflexivity|]. apply update_nth_twice.
Qed.

Lemma assign_length {A : Type} (a : list A) (i : Z) (v : A) :
  List.length (assign a i v) = List.length a.
Proof.
  unfold assign. destruct (i <? 0); [reflexivity|]. apply update_nth_length.
Qed.

Lemma index_negative {A : Type} (a : list A) (i : Z) : i < 0 -> index a i = None.
Proof. unfold index. intros H. destruct (Z.ltb_spec i 0); [reflexivity | lia]. Qed.

Lemma index_in_range {A : Type} (a : list A) (i : Z) :
  0 <= i < Z.of_nat (List.length a) -> exists x, index a i = Some x.
Proof.
  intros H. unfold index. destruct (Z.ltb_spec i 0); [lia|].
  destruct (nth_error a (Z.to_nat i)) as [x|] eqn:E; [eauto|].
  apply nth_error_None in E. lia.
Qed.

Lemma index_Some_range {A : Type} (a : list A) (i : Z) (x : A) :
  index a i = Some x -> 0 <= i < Z.of_nat (List.length a).
Proof.
  unfold index. destruct (Z.ltb_spec i 0); [discriminate|]. intros E.
  assert (Z.to_nat i < List.length a)%nat by (apply nth_error_Some; congruence).
  lia.
Qed.

Lemma substring_all (s : string) :
  forall n, (String.length s <= n)%nat -> substring 0 n s = s.
Proof.
  induction s as [|c s IH]; intros [|n] H; simpl in *; try reflexivity; try lia.
  f_equal. apply IH. lia.
Qed.

Lemma snprintf_fits (old : string) (size : nat) (text : string) :
  (String.length text < size)%nat -> snprintf old size text = text.
Proof.
  intros H. destruct size as [|n]; [lia|]. simpl. apply substring_all. lia.
Qed.

(** The fixed text of [worker_end_field] and [worker_end_stream] holds
    no digit, however it is cut. *)
Lemma short_message_has_no_digit (old : string) (size : nat) :
  (0 < size)%nat ->
  forall d, In d ["0"; "1"; "2"; "3"; "4"; "5"; "6"; "7"; "8"; "9"]%string ->
  contains d (snprintf old size invalid_socket_short) = false.
Proof.
  intros Hs d Hd. destruct size as [|n]; [lia|].
  assert (E : forall k, (k <= 22)%nat ->
              contains d (substring 0 k invalid_socket_short) = false).
  { intros k Hk. simpl in Hd.
    do 23 (destruct k as [|k]; [ intuition (subst; reflexivity) |]). lia. }
  destruct (Nat.le_gt_cases n 22) as [H|H].
  - now apply E.
  - unfold snprintf. rewrite substring_all by (simpl; lia).
    exact (E 22%nat (le_n _)).
Qed.

Section Wrappers.
Context {ext : Externals}.

Lemma worker_start_field_invalid m field_name len term_type stream_num :
  num_streams (worker m) <= stream_num ->
  worker_start_field field_name len term_type stream_num m
  = Ok (-1) (rejected m (invalid_socket_long stream_num (num_streams (worker m)))).
Proof.
  intros H. unfold worker_start_field, bind, get_worker.
  destruct (Z.geb_spec stream_num (num_streams (worker m))); [reflexivity | lia].
Qed.

Lemma worker_end_field_invalid m stream_num :
  num_streams (worker m) <= stream_num ->
  worker_end_field stream_num m = Ok (-1) (rejected m invalid_socket_short).
Proof.
  intros H. unfold worker_end_field, bind, get_worker.
  destruct (Z.geb_spec stream_num (num_streams (worker m))); [reflexivity | lia].
Qed.

Lemma worker_end_stream_invalid m stream_num :
  num_streams (worker m) <= stream_num ->
  worker_end_stream stream_num m = Ok (-1) (rejected m invalid_socket_short).
Proof.
  intros H. unfold worker_end_stream, bind, get_worker.
  destruct (Z.geb_spec stream_num (num_streams (worker m))); [reflexivity | lia].
Qed.

Ltac step_M :=
  unfold with_stream, load_stream, store_stream, store_error, store_error_code,
    bind, ret, get_worker, put_worker, call, undefined; cbn.

Lemma worker_start_field_valid m field_name len term_type stream_num s rc s' :
  stream_num < num_streams (worker m) ->
  index (out_streams (worker m)) stream_num = Some s ->
  write_field_start s field_name len term_type = (rc, s') ->
  worker_start_field field_name len term_type stream_num m
  = if rc =? 0
    then Ok 0 (delegated m stream_num (Call_write_field_start stream_num) s')
    else Ok rc (handed_over m stream_num (Call_write_field_start stream_num) s').
Proof.
  intros Hlt Hs Hw. unfold worker_start_field, bind at 1, get_worker at 1.
  destruct (Z.geb_spec stream_num (num_streams (worker m))); [lia|].
  step_M. rewrite Hs, Hw. cbn. rewrite Hs. cbn.
  destruct (rc =? 0); cbn; [reflexivity|].
  repeat (rewrite (index_assign_same _ _ _ _ Hs); cbn).
  unfold handed_over, set_error, set_out_streams. cbn.
  now rewrite assign_twice.
Qed.

Lemma worker_end_field_valid m stream_num s rc s' :
  stream_num < num_streams (worker m) ->
  index (out_streams (worker m)) stream_num = Some s ->
  write_field_end s = (rc, s') ->
  worker_end_field stream_num m
  = if rc =? -1
    then Ok (-1) (handed_over m stream_num (Call_write_field_end stream_num) s')
    else Ok 0 (delegated m stream_num (Call_write_field_end stream_num) s').
Proof.
  intros Hlt Hs Hw. unfold worker_end_field, bind at 1, get_worker at 1.
  destruct (Z.geb_spec stream_num (num_streams (worker m))); [lia|].
  step_M. rewrite Hs, Hw. cbn. rewrite Hs. cbn.
  destruct (rc =? -1); cbn; [|reflexivity].
  repeat (rewrite (index_assign_same _ _ _ _ Hs); cbn).
  unfold handed_over, set_error, set_out_streams. cbn.
  now rewrite assign_twice.
Qed.

Lemma worker_end_stream_valid m stream_num s rc s' :
  stream_num < num_streams (worker m) ->
  index (out_streams (worker m)) stream_num = Some s ->
  write_stream_end s = (rc, s') ->
  worker_end_stream stream_num m
  = if rc =? -1
    then Ok (-1) (handed_over m stream_num (Call_write_stream_end stream_num) s')
    else Ok 0 (delegated m stream_num (Call_write_stream_end stream_num) s').
Proof.
  intros Hlt Hs Hw. unfold worker_end_stream, bind at 1, get_worker at 1.
  destruct (Z.geb_spec stream_num (num_streams (worker m))); [lia|].
  step_M. rewrite Hs, Hw. cbn. rewrite Hs. cbn.
  destruct (rc =? -1); cbn; [|reflexivity].
  repeat (rewrite (index_assign_same _ _ _ _ Hs); cbn).
  unfold handed_over, set_error, set_out_streams. cbn.
  now rewrite assign_twice.
Qed.

(** Below the stream count but outside the array: the wrapper passes
    its check and indexes the array there. *)
Lemma worker_start_field_outside m field_name len term_type stream_num :
  stream_num < num_streams (worker m) ->
  index (out_streams (worker m)) stream_num = None ->
  worker_start_field field_name len term_type stream_num m = OutOfBounds stream_num.
Proof.
  intros Hlt Hs. unfold worker_start_field, bind at 1, get_worker at 1.
  destruct (Z.geb_spec stream_num (num_streams (worker m))); [lia|].
  step_M. now rewrite Hs.
Qed.

Lemma worker_end_field_outside m stream_num :
  stream_num < num_streams (worker m) ->
  index (out_streams (worker m)) stream_num = None ->
  worker_end_field stream_num m = OutOfBounds stream_num.
Proof.
  intros Hlt Hs. unfold worker_end_field, bind at 1, get_worker at 1.
  destruct (Z.geb_spec stream_num (num_streams (worker m))); [lia|].
  step_M. now rewrite Hs.
Qed.

Lemma worker_end_stream_outside m stream_num :
  stream_num < num_streams (worker m) ->
  index (out_streams (worker m)) stream_num = None ->
  worker_end_stream stream_num m = OutOfBounds stream_num.
Proof.
  intros Hlt Hs. unfold worker_end_stream, bind at 1, get_worker at 1.
  destruct (Z.geb_spec stream_num (num_streams (worker m))); [lia|].
  step_M. now rewrite Hs.
Qed.

Lemma run_tgs_pass_eq m term_type int_term string_term string_term_len
      addresses docs_per_shard shards num_shard stream_num desc err w' s' :
  desc = pass_desc m term_type int_term string_term string_term_len addresses
                   docs_per_shard shards num_shard stream_num ->
  tgs_execute_pass (worker m) (session m) desc = (err, w', s') ->
  run_tgs_pass term_type int_term string_term string_term_len addresses
               docs_per_shard shards num_shard stream_num m
  = if err =? 0
    then Ok err (mk_world w' s'
                   (calls m ++ pass_calls term_type stream_num (stream desc)))
    else match index (out_streams w') (stream desc) with
         | Some st =>
             Ok err (mk_world (after_failure w' st) s'
                       (calls m ++ pass_calls term_type stream_num (stream desc)))
         | None => OutOfBounds (stream desc)
         end.
Proof.
  intros -> Hp. unfold pass_desc in *. unfold run_tgs_pass. step_M.
  unfold get_session, put_session. cbn. rewrite Hp. cbn.
  destruct (err =? 0); cbn.
  - now rewrite <- !app_assoc.
  - match goal with |- context [index (out_streams w') ?i] =>
      destruct (index (out_streams w') i) as [st|] end; cbn; [|reflexivity].
    unfold after_failure.
    destruct (code (stream_err st) =? 0); cbn; now rewrite <- !app_assoc.
Qed.

End Wrappers.

(* ------------------------------------------------------------------- *)
(** *** [worker_init] establishes the stream count *)

Section Init.
Context {ext : Externals}.

Lemma worker_init_loop_keeps_shape (socket_fds : list Z) (todo : nat) :
  forall (i : Z) (m : world),
    0 <= i ->
    i + Z.of_nat todo <= Z.of_nat (List.length socket_fds) ->
    i + Z.of_nat todo <= Z.of_nat (List.length (out_streams (worker m))) ->
    exists m',
      worker_init_loop socket_fds todo i m = Ok tt m'
      /\ List.length (out_streams (worker m')) = List.length (out_streams (worker m))
      /\ num_streams (worker m') = num_streams (worker m)
      /\ error (worker m') = error (worker m).
Proof.
  induction todo as [|todo IH]; intros i m Hi Hfds Hstreams.
  - exists m. repeat split.
  - cbn [worker_init_loop].
    destruct (index_in_range socket_fds i ltac:(lia)) as [fd Hfd].
    destruct (index_in_range (out_streams (worker m)) i ltac:(lia)) as [st Hst].
    rewrite Hfd.
    unfold load_stream, store_stream, bind, ret, get_worker, put_worker, call, undefined.
    cbn. rewrite Hst. cbn. rewrite Hst.
    match goal with
    | |- exists m', worker_init_loop _ _ _ ?m1 = _ /\ _ =>
        destruct (IH (i + 1) m1) as (m' & Hrun & Hlen & Hnum & Herr)
    end; try lia.
    { cbn. rewrite assign_length. lia. }
    exists m'. split; [exact Hrun|].
    cbn in Hlen, Hnum, Herr. rewrite assign_length in Hlen. auto.
Qed.

(** Given at least [num_sockets] handles, [worker_init] returns with one
    stream per handle and the stream count equal to the extent of the
    array. *)
Lemma worker_init_ok (socket_fds : list Z) (num_sockets : Z) (m : world) :
  0 <= num_sockets <= Z.of_nat (List.length socket_fds) ->
  exists m',
    worker_init socket_fds num_sockets m = Ok tt m'
    /\ worker_ok (worker m')
    /\ num_streams (worker m') = num_sockets.
Proof.
  intros H. unfold worker_init, bind, get_worker, put_worker. cbn.
  match goal with
  | |- exists m', worker_init_loop _ _ _ ?m1 = _ /\ _ =>
      destruct (worker_init_loop_keeps_shape socket_fds (Z.to_nat num_sockets) 0 m1)
        as (m' & Hrun & Hlen & Hnum & _)
  end; try lia.
  { cbn. unfold calloc_streams. rewrite repeat_length. lia. }
  exists m'. split; [exact Hrun|]. unfold worker_ok.
  cbn in Hlen, Hnum. unfold calloc_streams in Hlen. rewrite repeat_length in Hlen.
  rewrite Hnum, Hlen. split; lia.
Qed.

(** In a worker as [worker_init] leaves it, the indices the wrappers
    accept and that are not negative are exactly the elements of the
    array. *)
Lemma valid_index_in_array (w : worker_desc) (i : Z) :
  worker_ok w -> valid_index w i -> exists s, index (out_streams w) i = Some s.
Proof.
  unfold worker_ok, valid_index. intros Hok Hi. apply index_in_range. lia.
Qed.

End Init.

(* ------------------------------------------------------------------- *)
(** *** Text of the long message *)

Lemma prefix_app (x rest : string) : String.prefix x (x ++ rest) = true.
Proof.
  induction x as [|c x IH]; simpl.
  - now destruct rest.
  - destruct (ascii_dec c c); [exact IH | congruence].
Qed.

Lemma prefix_refl (x : string) : String.prefix x x = true.
Proof.
  induction x as [|c x IH]; simpl; [reflexivity|].
  destruct (ascii_dec c c); [exact IH | congruence].
Qed.

Lemma contains_prefix (x hay : string) : String.prefix x hay = true -> contains x hay = true.
Proof. intros H. destruct hay; cbn [contains]; rewrite H; reflexivity. Qed.

Lemma contains_app_r (x before hay : string) :
  contains x hay = true -> contains x (before ++ hay) = true.
Proof.
  intros H. induction before as [|c before IH]; simpl; [exact H|].
  rewrite IH. apply orb_true_r.
Qed.

(** The long message names the index and the count. *)
Lemma long_message_names_both (stream_num n : Z) :
  contains (fmt_d stream_num) (invalid_socket_long stream_num n) = true
  /\ contains (fmt_d n) (invalid_socket_long stream_num n) = true.
Proof.
  unfold invalid_socket_long. split.
  - apply contains_app_r, contains_prefix, prefix_app.
  - apply contains_app_r, contains_app_r, contains_app_r.
    apply contains_prefix, prefix_refl.
Qed.

Lemma handed_over_hand_off (m : world) (i : Z) (e : event) (s s' : ftgs_outstream) :
  index (out_streams (worker m)) i = Some s ->
  hand_off m (handed_over m i e s') i s'.
Proof.
  intros Hs. unfold hand_off, handed_over. cbn. repeat split.
  - eapply index_assign_same; eauto.
  - intros j Hj. apply index_assign_other. congruence.
Qed.

End LocalSessionFacts.

(* ===================================================================== *)
(** ** Properties of the worker wrappers *)
(* ===================================================================== *)

Module WorkerClaims.
Import LocalSession LocalSessionFacts.

(** The three wrappers reject every index at or above the stream count
    alike: result [-1], code [EBADF], the streams, the session and the
    calls made so far left as they were; [worker_start_field] names index
    and count in its message when the buffer holds it. *)
Lemma invalid_index_rejected (ext : Externals) (m : world)
      (field_name : string) (len term_type stream_num : Z) :
  num_streams (worker m) <= stream_num ->
  exists text_start text_end,
    worker_start_field field_name len term_type stream_num m
    = Ok (-1) (rejected m text_start)
    /\ worker_end_field stream_num m = Ok (-1) (rejected m text_end)
    /\ worker_end_stream stream_num m = Ok (-1) (rejected m text_end)
    /\ (forall text, code (error (worker (rejected m text))) = EBADF
                     /\ out_streams (worker (rejected m text)) = out_streams (worker m)
                     /\ calls (rejected m text) = calls m)
    /\ ((String.length text_start < SIZE_ERR_STR)%nat ->
        contains (fmt_d stream_num) (str (error (worker (rejected m text_start)))) = true
        /\ contains (fmt_d (num_streams (worker m)))
                    (str (error (worker (rejected m text_start)))) = true).
Proof.
  intros H.
  exists (invalid_socket_long stream_num (num_streams (worker m))), invalid_socket_short.
  rewrite worker_start_field_invalid, worker_end_field_invalid,
    worker_end_stream_invalid by assumption.
  repeat split.
  - cbn. rewrite snprintf_fits by assumption. apply long_message_names_both.
  - cbn. rewrite snprintf_fits by assumption. apply long_message_names_both.
Qed.

(** C2: on a worker with two streams, [worker_start_field] with stream
    index 5 returns [-1], sets the worker's error to code [EBADF] with the
    message "Invalid socket number. stream_num: 5 num_streams: 2", which
    holds both 5 and 2, and leaves every stream, the session and the list
    of calls to the stream writers as they were.  The message buffer is
    taken to hold the 51 characters and the terminator. *)
Theorem worker_start_field_rejects_5_of_2 :
  forall (ext : Externals) (m : world) (field_name : string) (len term_type : Z),
    num_streams (worker m) = 2 ->
    (52 <= SIZE_ERR_STR)%nat ->
    exists m',
      worker_start_field field_name len term_type 5 m = Ok (-1) m'
      /\ code (error (worker m')) = EBADF
      /\ str (error (worker m'))
         = "Invalid socket number. stream_num: 5 num_streams: 2"%string
      /\ contains "5" (str (error (worker m'))) = true
      /\ contains "2" (str (error (worker m'))) = true
      /\ out_streams (worker m') = out_streams (worker m)
      /\ num_streams (worker m') = num_streams (worker m)
      /\ session m' = session m
      /\ calls m' = calls m.
Proof.
  intros ext m field_name len term_type Hn Hsize.
  exists (rejected m (invalid_socket_long 5 2)). split.
  - rewrite worker_start_field_invalid by lia. now rewrite Hn.
  - cbn. rewrite snprintf_fits by (cbn; lia).
    repeat split; reflexivity.
Qed.

Lemma worker_start_field_rejects_5_of_2_witness :
  num_streams (worker start_world) = 2
  /\ (52 <= @SIZE_ERR_STR (scripted 0 0 0 0 no_error))%nat
  /\ exists m',
      worker_start_field (ext := scripted 0 0 0 0 no_error) "age" 3 1 5 start_world
      = Ok (-1) m'
      /\ str (error (worker m'))
         = "Invalid socket number. stream_num: 5 num_streams: 2"%string
      /\ out_streams (worker m') = [idle_stream 7; idle_stream 8].
Proof.
  split; [reflexivity|]. split; [cbn; lia|].
  destruct (worker_start_field_rejects_5_of_2 (scripted 0 0 0 0 no_error) start_world
              "age" 3 1 eq_refl ltac:(cbn; lia))
    as (m' & Hrun & _ & Hstr & _ & _ & Hstreams & _).
  exists m'. repeat split; assumption.
Defined.

(** C3, where the code departs from it: for every index at or above the
    stream count, [worker_end_field] and [worker_end_stream] return [-1]
    with code [EBADF] and the streams untouched, but their message is the
    fixed text "Invalid socket number.", which holds no digit: neither
    the offending index nor the stream count is in it. *)
Theorem worker_end_message_names_no_number :
  forall (ext : Externals) (m : world) (stream_num : Z),
    num_streams (worker m) <= stream_num ->
    (0 < SIZE_ERR_STR)%nat ->
    exists m1 m2,
      worker_end_field stream_num m = Ok (-1) m1
      /\ worker_end_stream stream_num m = Ok (-1) m2
      /\ code (error (worker m1)) = EBADF
      /\ code (error (worker m2)) = EBADF
      /\ out_streams (worker m1) = out_streams (worker m)
      /\ out_streams (worker m2) = out_streams (worker m)
      /\ (forall d, In d ["0"; "1"; "2"; "3"; "4"; "5"; "6"; "7"; "8"; "9"]%string ->
            contains d (str (error (worker m1))) = false
            /\ contains d (str (error (worker m2))) = false)
      /\ ((String.length invalid_socket_short < SIZE_ERR_STR)%nat ->
            str (error (worker m1)) = "Invalid socket number."%string
            /\ str (error (worker m2)) = "Invalid socket number."%string).
Proof.
  intros ext m stream_num H Hsize.
  exists (rejected m invalid_socket_short), (rejected m invalid_socket_short).
  rewrite worker_end_field_invalid, worker_end_stream_invalid by assumption.
  repeat split; cbn.
  - now apply short_message_has_no_digit.
  - now apply short_message_has_no_digit.
  - now apply snprintf_fits.
  - now apply snprintf_fits.
Qed.

Lemma worker_end_message_names_no_number_witness :
  num_streams (worker start_world) <= 5
  /\ exists m1 m2,
      worker_end_field (ext := scripted 0 0 0 0 no_error) 5 start_world = Ok (-1) m1
      /\ worker_end_stream (ext := scripted 0 0 0 0 no_error) 5 start_world = Ok (-1) m2
      /\ contains "5" (str (error (worker m1))) = false
      /\ contains "2" (str (error (worker m1))) = false
      /\ contains "5" (str (error (worker m2))) = false
      /\ contains "2" (str (error (worker m2))) = false.
Proof.
  split; [cbn; lia|].
  destruct (worker_end_message_names_no_number (scripted 0 0 0 0 no_error) start_world 5
              ltac:(cbn; lia) ltac:(cbn; lia))
    as (m1 & m2 & H1 & H2 & _ & _ & _ & _ & Hd & _).
  exists m1, m2. repeat split; try assumption; apply Hd; simpl; tauto.
Defined.

(** The hand-over where the wrapper detects the failure: on a stream
    inside the worker's array, when the delegated writer returns a code
    the wrapper tests for (any non-zero code for [worker_start_field];
    the code [-1] for [worker_end_field] and [worker_end_stream]), the
    wrapper copies the error captured on the stream into the worker's
    error slot, sets the stream's own error code to 0, leaves the other
    streams alone, and returns the failure code. *)
Theorem stream_failure_is_handed_over :
  forall (ext : Externals) (m : world) (stream_num : Z) (s : ftgs_outstream),
    stream_num < num_streams (worker m) ->
    index (out_streams (worker m)) stream_num = Some s ->
    (forall field_name len term_type rc s',
        write_field_start s field_name len term_type = (rc, s') ->
        rc <> 0 ->
        exists m',
          worker_start_field field_name len term_type stream_num m = Ok rc m'
          /\ hand_off m m' stream_num s')
    /\ (forall s',
          write_field_end s = (-1, s') ->
          exists m',
            worker_end_field stream_num m = Ok (-1) m'
            /\ hand_off m m' stream_num s')
    /\ (forall s',
          write_stream_end s = (-1, s') ->
          exists m',
            worker_end_stream stream_num m = Ok (-1) m'
            /\ hand_off m m' stream_num s').
Proof.
  intros ext m stream_num s Hlt Hs. repeat split.
  - intros field_name len term_type rc s' Hw Hrc.
    rewrite (worker_start_field_valid _ _ _ _ _ _ _ _ Hlt Hs Hw).
    destruct (Z.eqb_spec rc 0); [contradiction|].
    eexists. split; [reflexivity|]. eapply handed_over_hand_off; eauto.
  - intros s' Hw.
    rewrite (worker_end_field_valid _ _ _ _ _ Hlt Hs Hw). cbn.
    eexists. split; [reflexivity|]. eapply handed_over_hand_off; eauto.
  - intros s' Hw.
    rewrite (worker_end_stream_valid _ _ _ _ _ Hlt Hs Hw). cbn.
    eexists. split; [reflexivity|]. eapply handed_over_hand_off; eauto.
Qed.

Lemma stream_failure_is_handed_over_witness :
  1 < num_streams (worker start_world)
  /\ index (out_streams (worker start_world)) 1 = Some (idle_stream 8)
  /\ (exists m',
        worker_start_field (ext := scripted 5 (-1) (-1) 0 broken_pipe) "age" 3 1 1
                           start_world = Ok 5 m'
        /\ error (worker m') = broken_pipe
        /\ index (out_streams (worker m')) 1
           = Some (capture (idle_stream 8) (mk_err 0 "Broken pipe")))
  /\ (exists m',
        worker_end_field (ext := scripted 5 (-1) (-1) 0 broken_pipe) 1 start_world
        = Ok (-1) m'
        /\ error (worker m') = broken_pipe)
  /\ (exists m',
        worker_end_stream (ext := scripted 5 (-1) (-1) 0 broken_pipe) 1 start_world
        = Ok (-1) m'
        /\ error (worker m') = broken_pipe).
Proof.
  split; [cbn; lia|]. split; [reflexivity|].
  destruct (stream_failure_is_handed_over (scripted 5 (-1) (-1) 0 broken_pipe)
              start_world 1 (idle_stream 8) ltac:(cbn; lia) eq_refl)
    as (Hstart & Hend & Hclose).
  split; [|split].
  - destruct (Hstart "age"%string 3 1 5 (capture (idle_stream 8) broken_pipe) eq_refl
                ltac:(lia)) as (m' & Hrun & He & Hi & _).
    exists m'. repeat split; assumption.
  - destruct (Hend (capture (idle_stream 8) broken_pipe) eq_refl)
      as (m' & Hrun & He & _).
    exists m'. split; assumption.
  - destruct (Hclose (capture (idle_stream 8) broken_pipe) eq_refl)
      as (m' & Hrun & He & _).
    exists m'. split; assumption.
Defined.

(** What the two end wrappers return: on a stream inside the worker's
    array, [worker_end_field] and [worker_end_stream] return [-1] exactly
    when the writer returned [-1], and then the worker's error slot holds
    the error captured on the stream; for every other code of the writer,
    0 or not, they return 0, the worker's error slot is as it was and the
    stream is as the writer left it. *)
Theorem worker_end_fails_exactly_on_minus_one :
  forall (ext : Externals) (m : world) (stream_num : Z) (s : ftgs_outstream),
    stream_num < num_streams (worker m) ->
    index (out_streams (worker m)) stream_num = Some s ->
    (forall rc s',
        write_field_end s = (rc, s') ->
        (rc = -1 ->
         exists m', worker_end_field stream_num m = Ok (-1) m'
                    /\ error (worker m') = stream_err s')
        /\ (rc <> -1 ->
            exists m', worker_end_field stream_num m = Ok 0 m'
                       /\ error (worker m') = error (worker m)
                       /\ index (out_streams (worker m')) stream_num = Some s'))
    /\ (forall rc s',
          write_stream_end s = (rc, s') ->
          (rc = -1 ->
           exists m', worker_end_stream stream_num m = Ok (-1) m'
                      /\ error (worker m') = stream_err s')
          /\ (rc <> -1 ->
              exists m', worker_end_stream stream_num m = Ok 0 m'
                         /\ error (worker m') = error (worker m)
                         /\ index (out_streams (worker m')) stream_num = Some s')).
Proof.
  intros ext m stream_num s Hlt Hs. split; intros rc s' Hw.
  - rewrite (worker_end_field_valid _ _ _ _ _ Hlt Hs Hw).
    destruct (Z.eqb_spec rc (-1)) as [E|E]; split; intros H; try contradiction.
    + eexists. split; reflexivity.
    + eexists. split; [reflexivity|]. split; [reflexivity|].
      cbn. eapply index_assign_same; eauto.
  - rewrite (worker_end_stream_valid _ _ _ _ _ Hlt Hs Hw).
    destruct (Z.eqb_spec rc (-1)) as [E|E]; split; intros H; try contradiction.
    + eexists. split; reflexivity.
    + eexists. split; [reflexivity|]. split; [reflexivity|].
      cbn. eapply index_assign_same; eauto.
Qed.

Lemma worker_end_fails_exactly_on_minus_one_witness :
  1 < num_streams (worker start_world)
  /\ index (out_streams (worker start_world)) 1 = Some (idle_stream 8)
  /\ (exists m',
        worker_end_field (ext := scripted 0 (-1) 0 0 broken_pipe) 1 start_world
        = Ok (-1) m'
        /\ error (worker m') = broken_pipe)
  /\ (exists m',
        worker_end_stream (ext := scripted 0 (-1) 0 0 broken_pipe) 1 start_world
        = Ok 0 m'
        /\ error (worker m') = no_error).
Proof.
  split; [cbn; lia|]. split; [reflexivity|].
  destruct (worker_end_fails_exactly_on_minus_one (scripted 0 (-1) 0 0 broken_pipe)
              start_world 1 (idle_stream 8) ltac:(cbn; lia) eq_refl)
    as (Hend & Hclose).
  split.
  - destruct (Hend (-1) (capture (idle_stream 8) broken_pipe) eq_refl) as (Hfail & _).
    destruct (Hfail eq_refl) as (m' & Hrun & He).
    exists m'. split; assumption.
  - destruct (Hclose 0 (send (idle_stream 8) Byte.x03) eq_refl) as (_ & Hpass).
    destruct (Hpass ltac:(lia)) as (m' & Hrun & He & _).
    exists m'. split; assumption.
Defined.

(** A run on explicit input: a field-end (or stream-end) writer that
    reports the non-zero code [-2] and has captured [broken_pipe] on
    stream 1 makes the wrapper return 0, with the worker's error slot
    still empty and the error still on the stream. *)
Lemma worker_end_ignores_other_codes :
  fst (write_field_end (Externals := scripted 0 (-2) (-2) 0 broken_pipe) (idle_stream 8))
  <> 0
  /\ fst (write_stream_end (Externals := scripted 0 (-2) (-2) 0 broken_pipe)
                           (idle_stream 8)) <> 0
  /\ worker_end_field (ext := scripted 0 (-2) (-2) 0 broken_pipe) 1 start_world
     = Ok 0 (mk_world (mk_worker 2 [idle_stream 7; capture (idle_stream 8) broken_pipe]
                                 no_error)
                      blank_session [Call_write_field_end 1])
  /\ worker_end_stream (ext := scripted 0 (-2) (-2) 0 broken_pipe) 1 start_world
     = Ok 0 (mk_world (mk_worker 2 [idle_stream 7; capture (idle_stream 8) broken_pipe]
                                 no_error)
                      blank_session [Call_write_stream_end 1]).
Proof.
  repeat split; try (cbn; lia); reflexivity.
Qed.

(** C4, where the code departs from it: on a stream inside the worker's
    array, when [write_field_end] or [write_stream_end] fails with a code
    other than [-1], [worker_end_field] and [worker_end_stream] make no
    hand-over: the worker's error slot is left as it was and the stream
    is left exactly as the writer left it, its captured error and error
    code still on it, so the failure is dropped.  [worker_start_field]
    on the same stream does hand over the error for every non-zero code
    of [write_field_start]. *)
Theorem worker_end_makes_no_hand_over :
  forall (ext : Externals) (m : world) (stream_num : Z) (s : ftgs_outstream),
    stream_num < num_streams (worker m) ->
    index (out_streams (worker m)) stream_num = Some s ->
    (forall rc s',
        write_field_end s = (rc, s') -> rc <> 0 -> rc <> -1 ->
        exists m',
          worker_end_field stream_num m = Ok 0 m'
          /\ error (worker m') = error (worker m)
          /\ index (out_streams (worker m')) stream_num = Some s'
          /\ WorkerLifecycle.others_untouched m m' stream_num)
    /\ (forall rc s',
          write_stream_end s = (rc, s') -> rc <> 0 -> rc <> -1 ->
          exists m',
            worker_end_stream stream_num m = Ok 0 m'
            /\ error (worker m') = error (worker m)
            /\ index (out_streams (worker m')) stream_num = Some s'
            /\ WorkerLifecycle.others_untouched m m' stream_num)
    /\ (forall field_name len term_type rc s',
          write_field_start s field_name len term_type = (rc, s') -> rc <> 0 ->
          exists m',
            worker_start_field field_name len term_type stream_num m = Ok rc m'
            /\ hand_off m m' stream_num s').
Proof.
  intros ext m stream_num s Hlt Hs.
  assert (K : forall e s',
             error (worker (delegated m stream_num e s')) = error (worker m)
             /\ index (out_streams (worker (delegated m stream_num e s'))) stream_num
                = Some s'
             /\ WorkerLifecycle.others_untouched m (delegated m stream_num e s') stream_num).
  { intros e s'. cbn. repeat split.
    - eapply index_assign_same; eauto.
    - intros j Hj. cbn. apply index_assign_other. congruence. }
  split; [|split].
  - intros rc s' Hw H0 H1.
    rewrite (worker_end_field_valid _ _ _ _ _ Hlt Hs Hw).
    destruct (Z.eqb_spec rc (-1)); [contradiction|].
    eexists. split; [reflexivity | apply K].
  - intros rc s' Hw H0 H1.
    rewrite (worker_end_stream_valid _ _ _ _ _ Hlt Hs Hw).
    destruct (Z.eqb_spec rc (-1)); [contradiction|].
    eexists. split; [reflexivity | apply K].
  - intros field_name len term_type rc s' Hw Hrc.
    rewrite (worker_start_field_valid _ _ _ _ _ _ _ _ Hlt Hs Hw).
    destruct (Z.eqb_spec rc 0); [contradiction|].
    eexists. split; [reflexivity|]. eapply handed_over_hand_off; eauto.
Qed.

Lemma worker_end_makes_no_hand_over_witness :
  1 < num_streams (worker start_world)
  /\ index (out_streams (worker start_world)) 1 = Some (idle_stream 8)
  /\ (exists m',
        worker_end_field (ext := scripted (-2) (-2) (-2) 0 broken_pipe) 1 start_world
        = Ok 0 m'
        /\ error (worker m') = no_error
        /\ index (out_streams (worker m')) 1 = Some (capture (idle_stream 8) broken_pipe))
  /\ (exists m',
        worker_end_stream (ext := scripted (-2) (-2) (-2) 0 broken_pipe) 1 start_world
        = Ok 0 m'
        /\ error (worker m') = no_error
        /\ index (out_streams (worker m')) 1 = Some (capture (idle_stream 8) broken_pipe))
  /\ (exists m',
        worker_start_field (ext := scripted (-2) (-2) (-2) 0 broken_pipe) "age" 3 1 1
                           start_world = Ok (-2) m'
        /\ error (worker m') = broken_pipe
        /\ index (out_streams (worker m')) 1
           = Some (capture (idle_stream 8) (mk_err 0 "Broken pipe"))).
Proof.
  split; [cbn; lia|]. split; [reflexivity|].
  destruct (worker_end_makes_no_hand_over (scripted (-2) (-2) (-2) 0 broken_pipe)
              start_world 1 (idle_stream 8) ltac:(cbn; lia) eq_refl)
    as (Hend & Hclose & Hstart).
  split; [|split].
  - destruct (Hend (-2) (capture (idle_stream 8) broken_pipe) eq_refl
                ltac:(lia) ltac:(lia)) as (m' & Hrun & He & Hi & _).
    exists m'. repeat split; assumption.
  - destruct (Hclose (-2) (capture (idle_stream 8) broken_pipe) eq_refl
                ltac:(lia) ltac:(lia)) as (m' & Hrun & He & Hi & _).
    exists m'. repeat split; assumption.
  - destruct (Hstart "age"%string 3 1 (-2) (capture (idle_stream 8) broken_pipe)
                eq_refl ltac:(lia)) as (m' & Hrun & He & Hi & _).
    exists m'. repeat split; assumption.
Defined.

(** C5, where the code departs from it: on a stream inside the worker's
    array, whenever [write_field_end] or [write_stream_end] returns a
    code other than [-1], non-zero failure codes included,
    [worker_end_field] and [worker_end_stream] return 0, the result of a
    success, and the worker's error slot is not populated: it is left as
    it was.  Only the code [-1] gives the result [-1] with the slot
    holding the stream's error.  [worker_start_field] returns every
    non-zero code of its writer as a failure, with the slot holding the
    stream's error. *)
Theorem worker_end_returns_success_on_failure_codes :
  forall (ext : Externals) (m : world) (stream_num : Z) (s : ftgs_outstream),
    stream_num < num_streams (worker m) ->
    index (out_streams (worker m)) stream_num = Some s ->
    (forall rc s',
        write_field_end s = (rc, s') ->
        (rc <> -1 ->
         exists m', worker_end_field stream_num m = Ok 0 m'
                    /\ error (worker m') = error (worker m))
        /\ (rc = -1 ->
            exists m', worker_end_field stream_num m = Ok (-1) m'
                       /\ error (worker m') = stream_err s'))
    /\ (forall rc s',
          write_stream_end s = (rc, s') ->
          (rc <> -1 ->
           exists m', worker_end_stream stream_num m = Ok 0 m'
                      /\ error (worker m') = error (worker m))
          /\ (rc = -1 ->
              exists m', worker_end_stream stream_num m = Ok (-1) m'
                         /\ error (worker m') = stream_err s'))
    /\ (forall field_name len term_type rc s',
          write_field_start s field_name len term_type = (rc, s') -> rc <> 0 ->
          exists m',
            worker_start_field field_name len term_type stream_num m = Ok rc m'
            /\ error (worker m') = stream_err s').
Proof.
  intros ext m stream_num s Hlt Hs. split; [|split].
  - intros rc s' Hw. rewrite (worker_end_field_valid _ _ _ _ _ Hlt Hs Hw).
    destruct (Z.eqb_spec rc (-1)); split; intros H; try contradiction;
      eexists; split; reflexivity.
  - intros rc s' Hw. rewrite (worker_end_stream_valid _ _ _ _ _ Hlt Hs Hw).
    destruct (Z.eqb_spec rc (-1)); split; intros H; try contradiction;
      eexists; split; reflexivity.
  - intros field_name len term_type rc s' Hw Hrc.
    rewrite (worker_start_field_valid _ _ _ _ _ _ _ _ Hlt Hs Hw).
    destruct (Z.eqb_spec rc 0); [contradiction|].
    eexists. split; reflexivity.
Qed.

Lemma worker_end_returns_success_on_failure_codes_witness :
  1 < num_streams (worker start_world)
  /\ index (out_streams (worker start_world)) 1 = Some (idle_stream 8)
  /\ fst (write_field_end (Externals := scripted (-2) (-2) (-2) 0 broken_pipe)
                          (idle_stream 8)) = -2
  /\ (exists m',
        worker_end_field (ext := scripted (-2) (-2) (-2) 0 broken_pipe) 1 start_world
        = Ok 0 m'
        /\ error (worker m') = no_error)
  /\ (exists m',
        worker_end_stream (ext := scripted (-2) (-2) (-2) 0 broken_pipe) 1 start_world
        = Ok 0 m'
        /\ error (worker m') = no_error)
  /\ (exists m',
        worker_start_field (ext := scripted (-2) (-2) (-2) 0 broken_pipe) "age" 3 1 1
                           start_world = Ok (-2) m'
        /\ error (worker m') = broken_pipe).
Proof.
  split; [cbn; lia|]. split; [reflexivity|]. split; [reflexivity|].
  destruct (worker_end_returns_success_on_failure_codes
              (scripted (-2) (-2) (-2) 0 broken_pipe)
              start_world 1 (idle_stream 8) ltac:(cbn; lia) eq_refl)
    as (Hend & Hclose & Hstart).
  split; [|split].
  - destruct (Hend (-2) (capture (idle_stream 8) broken_pipe) eq_refl) as (Hok & _).
    destruct (Hok ltac:(lia)) as (m' & Hrun & He).
    exists m'. split; assumption.
  - destruct (Hclose (-2) (capture (idle_stream 8) broken_pipe) eq_refl) as (Hok & _).
    destruct (Hok ltac:(lia)) as (m' & Hrun & He).
    exists m'. split; assumption.
  - destruct (Hstart "age"%string 3 1 (-2) (capture (idle_stream 8) broken_pipe)
                eq_refl ltac:(lia)) as (m' & Hrun & He).
    exists m'. split; assumption.
Defined.

(** C10: with a stream count that is not negative, a negative stream
    index passes the check of each of the three wrappers (the check
    rejects only an index at or above the count): none of them returns
    the invalid-index failure, each goes on to index the stream array at
    the negative index, which is outside the array. *)
Theorem negative_index_passes_the_check :
  forall (ext : Externals) (m : world) (field_name : string)
         (len term_type stream_num : Z),
    0 <= num_streams (worker m) ->
    stream_num < 0 ->
    (stream_num >=? num_streams (worker m)) = false
    /\ worker_start_field field_name len term_type stream_num m = OutOfBounds stream_num
    /\ worker_end_field stream_num m = OutOfBounds stream_num
    /\ worker_end_stream stream_num m = OutOfBounds stream_num
    /\ (forall text,
          worker_start_field field_name len term_type stream_num m
          <> Ok (-1) (rejected m text)
          /\ worker_end_field stream_num m <> Ok (-1) (rejected m text)
          /\ worker_end_stream stream_num m <> Ok (-1) (rejected m text)).
Proof.
  intros ext m field_name len term_type stream_num Hn Hneg.
  assert (Hlt : stream_num < num_streams (worker m)) by lia.
  pose proof (index_negative (out_streams (worker m)) stream_num Hneg) as Hi.
  rewrite (worker_start_field_outside _ field_name len term_type _ Hlt Hi).
  rewrite (worker_end_field_outside _ _ Hlt Hi).
  rewrite (worker_end_stream_outside _ _ Hlt Hi).
  repeat split; try discriminate.
  destruct (Z.geb_spec stream_num (num_streams (worker m))); [lia | reflexivity].
Qed.

Lemma negative_index_passes_the_check_witness :
  0 <= num_streams (worker start_world)
  /\ -1 < 0
  /\ worker_start_field (ext := scripted 0 0 0 0 no_error) "age" 3 1 (-1) start_world
     = OutOfBounds (-1)
  /\ worker_end_field (ext := scripted 0 0 0 0 no_error) (-1) start_world
     = OutOfBounds (-1)
  /\ worker_end_stream (ext := scripted 0 0 0 0 no_error) (-1) start_world
     = OutOfBounds (-1).
Proof.
  split; [cbn; lia|]. split; [lia|].
  destruct (negative_index_passes_the_check (scripted 0 0 0 0 no_error) start_world
              "age" 3 1 (-1) ltac:(cbn; lia) ltac:(lia))
    as (_ & H1 & H2 & H3 & _).
  repeat split; assumption.
Defined.

End WorkerClaims.

(* ===================================================================== *)
(** ** Properties of [run_tgs_pass] *)
(* ===================================================================== *)

Module PassClaims.
Import LocalSession LocalSessionFacts.

(** [run_tgs_pass] never writes to the stream array itself: after a
    failed pass the stream still holds the error it captured. *)
Lemma run_tgs_pass_keeps_stream_error (ext : Externals) (m m' : world)
      (term_type int_term : Z) (string_term : string) (string_term_len : Z)
      (addresses : list string) (docs_per_shard : list Z) (shards : list packed_table)
      (num_shard stream_num r : Z) :
  run_tgs_pass term_type int_term string_term string_term_len addresses
               docs_per_shard shards num_shard stream_num m = Ok r m' ->
  out_streams (worker m')
  = out_streams (snd (fst (tgs_execute_pass (worker m) (session m)
                             (pass_desc m term_type int_term string_term
                                        string_term_len addresses docs_per_shard
                                        shards num_shard stream_num)))).
Proof.
  destruct (tgs_execute_pass (worker m) (session m)
              (pass_desc m term_type int_term string_term string_term_len addresses
                         docs_per_shard shards num_shard stream_num))
    as [[err w'] s'] eqn:Hp.
  rewrite (run_tgs_pass_eq _ _ _ _ _ _ _ _ _ _ _ _ _ _ eq_refl Hp). cbn.
  destruct (err =? 0).
  - intros H. injection H as _ <-. reflexivity.
  - match goal with |- context [index (out_streams w') ?i] =>
      destruct (index (out_streams w') i) as [st|] end; [|discriminate].
    intros H. injection H as _ <-. cbn. unfold after_failure.
    destruct (code (stream_err st) =? 0); reflexivity.
Qed.

(** C1, as the code has it: when the accumulation pass returns a
    non-zero code and the stream its descriptor is bound to lies inside
    the worker's array, [run_tgs_pass] returns that code; if the stream
    holds a captured error (code not 0) the worker's error slot receives
    it and is populated; if the stream holds none, the worker's error
    slot is what the pass left. *)
Theorem run_tgs_pass_reports_captured_error :
  forall (ext : Externals) (m : world)
         (term_type int_term : Z) (string_term : string) (string_term_len : Z)
         (addresses : list string) (docs_per_shard : list Z)
         (shards : list packed_table) (num_shard stream_num : Z)
         (desc : tgs_desc term_s)
         (err : Z) (w' : worker_desc) (s' : session_desc) (st : ftgs_outstream),
    desc = pass_desc m term_type int_term string_term string_term_len addresses
                     docs_per_shard shards num_shard stream_num ->
    tgs_execute_pass (worker m) (session m) desc = (err, w', s') ->
    err <> 0 ->
    index (out_streams w') (stream desc) = Some st ->
    exists m',
      run_tgs_pass term_type int_term string_term string_term_len addresses
                   docs_per_shard shards num_shard stream_num m = Ok err m'
      /\ (code (stream_err st) <> 0 ->
          error (worker m') = stream_err st /\ code (error (worker m')) <> 0)
      /\ (code (stream_err st) = 0 -> error (worker m') = error w').
Proof.
  intros ext m term_type int_term string_term string_term_len addresses
         docs_per_shard shards num_shard stream_num desc err w' s' st Hd Hp Herr Hst.
  rewrite (run_tgs_pass_eq _ _ _ _ _ _ _ _ _ _ _ _ _ _ Hd Hp).
  destruct (Z.eqb_spec err 0); [contradiction|]. rewrite Hst.
  eexists. split; [reflexivity|]. cbn. unfold after_failure.
  destruct (Z.eqb_spec (code (stream_err st)) 0) as [E|E]; split; intros H;
    try contradiction; cbn; auto.
Qed.

Lemma run_tgs_pass_reports_captured_error_witness :
  exists m',
    run_tgs_pass (ext := scripted 0 0 0 (-1) broken_pipe) 1 42 "" 0 [] [] [] 0 1
                 start_world = Ok (-1) m'
    /\ error (worker m') = broken_pipe.
Proof.
  destruct (run_tgs_pass_reports_captured_error (scripted 0 0 0 (-1) broken_pipe)
              start_world 1 42 ""%string 0 [] [] [] 0 1
              (mk_tgs 42 1 [] [] [] 0 1)
              (-1) (mk_worker 2 [idle_stream 7; capture (idle_stream 8) broken_pipe]
                              no_error)
              blank_session (capture (idle_stream 8) broken_pipe)
              eq_refl eq_refl ltac:(lia) eq_refl)
    as (m' & Hrun & Hcopy & _).
  exists m'. split; [exact Hrun|].
  apply Hcopy. cbn. lia.
Defined.

(** C1 as stated fails twice.  A pass that fails without an error on the
    stream leaves the worker's error slot empty; and when the stream does
    hold an error, [run_tgs_pass] copies it but the stream keeps it. *)
Lemma run_tgs_pass_failure_unreported :
  run_tgs_pass (ext := scripted 0 0 0 (-1) no_error) 1 42 "" 0 [] [] [] 0 1 start_world
  = Ok (-1) (mk_world two_streams blank_session (pass_calls 1 1 1))
  /\ code (error two_streams) = 0
  /\ run_tgs_pass (ext := scripted 0 0 0 (-1) broken_pipe) 1 42 "" 0 [] [] [] 0 1
                  start_world
     = Ok (-1) (mk_world (mk_worker 2 [idle_stream 7; capture (idle_stream 8) broken_pipe]
                                    broken_pipe)
                         blank_session (pass_calls 1 1 1))
  /\ code (stream_err (capture (idle_stream 8) broken_pipe)) = 32.
Proof.
  repeat split.
Qed.

(** C6: whatever the accumulation pass returns, success or failure, a
    [run_tgs_pass] that reads inside the stream array makes its calls in
    the one order start_timer, term_init, tgs_init, tgs_execute_pass,
    tgs_destroy, term_destroy, end_timer, and returns the code of the
    pass: among them [tgs_destroy] and [term_destroy] occur exactly once
    each, after the pass and before the return. *)
Theorem run_tgs_pass_destroys_once :
  forall (ext : Externals) (m : world)
         (term_type int_term : Z) (string_term : string) (string_term_len : Z)
         (addresses : list string) (docs_per_shard : list Z)
         (shards : list packed_table) (num_shard stream_num : Z)
         (desc : tgs_desc term_s)
         (err : Z) (w' : worker_desc) (s' : session_desc),
    desc = pass_desc m term_type int_term string_term string_term_len addresses
                     docs_per_shard shards num_shard stream_num ->
    tgs_execute_pass (worker m) (session m) desc = (err, w', s') ->
    err = 0 \/ index (out_streams w') (stream desc) <> None ->
    exists m' before,
      run_tgs_pass term_type int_term string_term string_term_len addresses
                   docs_per_shard shards num_shard stream_num m = Ok err m'
      /\ calls m' = calls m ++ before
                      ++ [Call_tgs_destroy; Call_term_destroy term_type; Call_end_timer 3]
      /\ In (Call_tgs_execute_pass (stream desc)) before
      /\ List.length (filter is_tgs_destroy
                        (before ++ [Call_tgs_destroy; Call_term_destroy term_type;
                                    Call_end_timer 3])) = 1%nat
      /\ List.length (filter is_term_destroy
                        (before ++ [Call_tgs_destroy; Call_term_destroy term_type;
                                    Call_end_timer 3])) = 1%nat.
Proof.
  intros ext m term_type int_term string_term string_term_len addresses
         docs_per_shard shards num_shard stream_num desc err w' s' Hd Hp Hdef.
  rewrite (run_tgs_pass_eq _ _ _ _ _ _ _ _ _ _ _ _ _ _ Hd Hp).
  assert (Hok : exists m',
             (if err =? 0
              then Ok err (mk_world w' s'
                             (calls m ++ pass_calls term_type stream_num (stream desc)))
              else match index (out_streams w') (stream desc) with
                   | Some st =>
                       Ok err (mk_world (after_failure w' st) s'
                                 (calls m ++ pass_calls term_type stream_num (stream desc)))
                   | None => OutOfBounds (stream desc)
                   end) = Ok err m'
             /\ calls m' = calls m ++ pass_calls term_type stream_num (stream desc)).
  { destruct (Z.eqb_spec err 0) as [E|E].
    - eexists. split; reflexivity.
    - destruct Hdef as [Hdef|Hdef]; [contradiction|].
      destruct (index (out_streams w') (stream desc)) as [st|]; [|congruence].
      eexists. split; reflexivity. }
  destruct Hok as (m' & Hrun & Hcalls).
  exists m', [Call_start_timer 3; Call_term_init term_type; Call_tgs_init stream_num;
              Call_tgs_execute_pass (stream desc)].
  split; [exact Hrun|]. split; [exact Hcalls|].
  split; [simpl; tauto|]. split; reflexivity.
Qed.

Lemma run_tgs_pass_destroys_once_witness :
  exists m',
    run_tgs_pass (ext := scripted 0 0 0 (-1) broken_pipe) 1 42 "" 0 [] [] [] 0 1
                 start_world = Ok (-1) m'
    /\ List.length (filter is_tgs_destroy (calls m')) = 1%nat
    /\ List.length (filter is_term_destroy (calls m')) = 1%nat.
Proof.
  destruct (run_tgs_pass_destroys_once (scripted 0 0 0 (-1) broken_pipe)
              start_world 1 42 ""%string 0 [] [] [] 0 1
              (mk_tgs 42 1 [] [] [] 0 1)
              (-1) (mk_worker 2 [idle_stream 7; capture (idle_stream 8) broken_pipe]
                              no_error)
              blank_session eq_refl eq_refl ltac:(right; discriminate))
    as (m' & before & Hrun & Hcalls & _ & Hd & Ht).
  exists m'. split; [exact Hrun|].
  rewrite Hcalls. split; assumption.
Defined.

(** C9: [run_tgs_pass] compares its stream index with nothing.  For every
    [stream_num], negative or beyond the stream count included, the
    pointer to [out_streams[stream_num]] is handed to [tgs_init] and the
    accumulation pass is called on the descriptor.  The run returns the
    code of the pass; on success the worker is what the pass left; the
    worker's error slot only ever holds what the pass left or the error
    of the descriptor's stream, never an invalid-index error of
    [run_tgs_pass]'s own.  The one other outcome is the read of the
    descriptor's stream outside the array after a failed pass. *)
Theorem run_tgs_pass_checks_no_index :
  forall (ext : Externals) (m : world)
         (term_type int_term : Z) (string_term : string) (string_term_len : Z)
         (addresses : list string) (docs_per_shard : list Z)
         (shards : list packed_table) (num_shard stream_num : Z),
    let desc := pass_desc m term_type int_term string_term string_term_len addresses
                          docs_per_shard shards num_shard stream_num in
    let pass := tgs_execute_pass (worker m) (session m) desc in
    desc = tgs_init (worker m) (term_init term_type int_term string_term string_term_len)
                    term_type addresses docs_per_shard shards num_shard
                    stream_num (session m)
    /\ match run_tgs_pass term_type int_term string_term string_term_len addresses
                          docs_per_shard shards num_shard stream_num m with
       | Ok r m' =>
           r = fst (fst pass)
           /\ calls m' = calls m ++ pass_calls term_type stream_num (stream desc)
           /\ In (Call_tgs_init stream_num) (calls m')
           /\ In (Call_tgs_execute_pass (stream desc)) (calls m')
           /\ session m' = snd pass
           /\ (r = 0 /\ worker m' = snd (fst pass)
               \/ r <> 0 /\ error (worker m') = error (snd (fst pass))
               \/ r <> 0 /\ exists st,
                     index (out_streams (snd (fst pass))) (stream desc) = Some st
                     /\ error (worker m') = stream_err st)
       | OutOfBounds i =>
           i = stream desc
           /\ fst (fst pass) <> 0
           /\ index (out_streams (snd (fst pass))) (stream desc) = None
       end.
Proof.
  intros ext m term_type int_term string_term string_term_len addresses
         docs_per_shard shards num_shard stream_num desc pass.
  split; [reflexivity|].
  destruct pass as [[err w'] s'] eqn:Hp. subst pass.
  rewrite (run_tgs_pass_eq _ _ _ _ _ _ _ _ _ _ _ _ _ _ eq_refl Hp). fold desc. cbn.
  assert (Hin : forall e, In e (pass_calls term_type stream_num (stream desc)) ->
                          In e (calls m ++ pass_calls term_type stream_num (stream desc))).
  { intros e He. apply in_or_app. now right. }
  destruct (Z.eqb_spec err 0) as [E|E].
  - cbn. repeat split; auto; apply Hin; simpl; tauto.
  - destruct (index (out_streams w') (stream desc)) as [st|] eqn:Hst.
    + cbn. repeat split; auto; try (apply Hin; simpl; tauto). unfold after_failure.
      destruct (code (stream_err st) =? 0); cbn.
      * right. left. auto.
      * right. right. split; [assumption|]. exists st. auto.
    + repeat split; auto.
Qed.

(** [run_tgs_pass] on an index the wrappers reject: with two streams and
    index 5 (or -1) the pass is run and its success returned. *)
Example run_tgs_pass_index_5_of_2 :
  run_tgs_pass (ext := scripted 0 0 0 0 no_error) 1 42 "" 0 [] [] [] 0 5 start_world
  = Ok 0 (mk_world two_streams blank_session (pass_calls 1 5 5))
  /\ run_tgs_pass (ext := scripted 0 0 0 0 no_error) 1 42 "" 0 [] [] [] 0 (-1) start_world
     = Ok 0 (mk_world two_streams blank_session (pass_calls 1 (-1) (-1))).
Proof. split; reflexivity. Qed.

End PassClaims.

(* ===================================================================== *)
(** ** Properties of [session_init] *)
(* ===================================================================== *)

Module SessionClaims.
Import LocalSession LocalSessionFacts.

Lemma zero_rows_length (num_rows : Z) (widths : list Z) :
  List.length (zero_rows num_rows widths) = Z.to_nat num_rows.
Proof. unfold zero_rows. apply repeat_length. Qed.

Lemma zero_rows_zero (num_rows : Z) (widths : list Z) :
  forall row, In row (zero_rows num_rows widths) ->
              List.length row = List.length widths /\ Forall (fun c => c = 0) row.
Proof.
  intros row H. apply repeat_spec in H. subst row. split.
  - apply length_map.
  - induction widths; simpl; constructor; auto.
Qed.

(** C8: for every group count [G >= 0], stat count [S], flag and sample
    table, whatever the session held before, [session_init] stores [G],
    [S] and the flag; the group-stats table has [G] rows, the column
    layout of the sample, and only zero cells; the scratch table has
    [PREFETCH_BUFFER_SIZE = 64] rows and the same column layout; the ring
    buffer has capacity [CIRC_BUFFER_SIZE = 64]; the dirty-group array
    has [G] entries, all zero. *)
Theorem session_init_builds_buffers :
  forall (session : session_desc) (G S flag : Z) (sample_table : packed_table),
    0 <= G ->
    let s := session_init session G S flag sample_table in
    num_groups s = G
    /\ num_stats s = S
    /\ only_binary_metrics s = flag
    /\ ut_num_rows (grp_stats s) = G
    /\ ut_col_widths (grp_stats s) = pt_col_widths sample_table
    /\ Z.of_nat (List.length (ut_cells (grp_stats s))) = G
    /\ (forall row, In row (ut_cells (grp_stats s)) ->
          List.length row = List.length (pt_col_widths sample_table)
          /\ Forall (fun c => c = 0) row)
    /\ ut_num_rows (temp_buf s) = 64
    /\ ut_col_widths (temp_buf s) = pt_col_widths sample_table
    /\ cb_capacity (grp_buf s) = 64
    /\ exists flags,
        nz_grps_buf s = Some flags
        /\ Z.of_nat (List.length flags) = G
        /\ Forall (fun f => f = 0) flags.
Proof.
  intros session G S flag sample_table HG s. subst s.
  unfold session_init, allocate_grp_stats. cbn.
  repeat split.
  - rewrite zero_rows_length. lia.
  - eapply zero_rows_zero in H. apply H.
  - eapply zero_rows_zero in H. apply H.
  - unfold calloc_uint32. destruct (Z.ltb_spec G 0); [lia|].
    eexists. split; [reflexivity|]. split.
    + rewrite repeat_length. lia.
    + apply Forall_forall. intros f Hf. now apply repeat_spec in Hf.
Qed.

Lemma session_init_builds_buffers_witness :
  0 <= 3
  /\ session_init blank_session 3 2 1 (mk_packed [4; 8] [])
     = mk_session 3 2 1
         (mk_unpacked 3 [4; 8] [[0; 0]; [0; 0]; [0; 0]])
         (mk_unpacked 64 [4; 8] (zero_rows 64 [4; 8]))
         (mk_circ 64 [])
         (Some [0; 0; 0])
  /\ ut_num_rows (grp_stats (session_init blank_session 3 2 1 (mk_packed [4; 8] []))) = 3.
Proof.
  split; [lia|]. split; [reflexivity|].
  exact (proj1 (proj2 (proj2 (proj2
           (session_init_builds_buffers blank_session 3 2 1 (mk_packed [4; 8] [])
              ltac:(lia)))))).
Defined.

End SessionClaims.

(* ===================================================================== *)
(** ** Further properties of the key codec *)
(* ===================================================================== *)

Module BTreeMoreFacts.
Import BTree BTreeFacts BTreePair.

Lemma le_combine_range (bs : list byte) :
  0 <= le_combine bs < 2 ^ (8 * Z.of_nat (List.length bs)).
Proof.
  induction bs as [|b bs IH]; cbn [le_combine List.length].
  - simpl. lia.
  - pose proof (byte_val_range b) as Hb.
    replace (8 * Z.of_nat (S (List.length bs)))
      with (8 + 8 * Z.of_nat (List.length bs)) by lia.
    rewrite Z.pow_add_r by lia. change (2 ^ 8) with 256. nia.
Qed.

Lemma byte_of_Z_val (b : byte) (r : Z) : byte_of_Z (byte_val b + 256 * r) = b.
Proof.
  unfold byte_of_Z.
  replace ((byte_val b + 256 * r) mod 256) with (byte_val b).
  - unfold byte_val. rewrite N2Z.id, Byte.of_to_N. reflexivity.
  - pose proof (byte_val_range b).
    apply Z.mod_unique with (q := r); lia.
Qed.

Lemma le_split_combine (bs : list byte) :
  le_split (List.length bs) (le_combine bs) = bs.
Proof.
  induction bs as [|b bs IH]; cbn [le_combine List.length le_split]; [reflexivity|].
  rewrite byte_of_Z_val. f_equal.
  replace ((byte_val b + 256 * le_combine bs) / 256) with (le_combine bs); [exact IH|].
  pose proof (byte_val_range b).
  apply Z.div_unique with (r := byte_val b); lia.
Qed.

Lemma to_signed_range (n : nat) (u : Z) :
  (0 < n)%nat ->
  0 <= u < 2 ^ (8 * Z.of_nat n) ->
  - 2 ^ (8 * Z.of_nat n - 1) <= to_signed n u < 2 ^ (8 * Z.of_nat n - 1)
  /\ to_signed n u mod 2 ^ (8 * Z.of_nat n) = u.
Proof.
  intros Hn Hu. unfold to_signed.
  set (w := 8 * Z.of_nat n) in *.
  assert (Hw : 2 ^ w = 2 * 2 ^ (w - 1)).
  { replace w with (1 + (w - 1)) at 1 by lia.
    rewrite Z.pow_add_r by lia. reflexivity. }
  assert (Hp : 0 < 2 ^ (w - 1)) by (apply Z.pow_pos_nonneg; lia).
  destruct (Z.ltb_spec u (2 ^ (w - 1))).
  - split; [lia|]. apply Z.mod_small. lia.
  - split; [lia|]. symmetry. apply Z.mod_unique with (q := -1); lia.
Qed.

(** Reading [n] bytes and storing the value read gives the bytes back. *)
Lemma store_load (o : byte_order) (bs : list byte) :
  (0 < List.length bs)%nat ->
  store o (List.length bs) (load o (List.length bs) bs) = bs.
Proof.
  intros Hn.
  assert (K : forall l : list byte,
             (0 < List.length l)%nat ->
             le_split (List.length l) (to_signed (List.length l) (le_combine l)) = l).
  { intros l Hl.
    destruct (to_signed_range (List.length l) (le_combine l) Hl (le_combine_range l))
      as [_ Hmod].
    rewrite <- (le_split_combine
                  (le_split (List.length l) (to_signed (List.length l) (le_combine l)))).
    rewrite le_split_length, le_combine_split, Hmod.
    apply le_split_combine. }
  destruct o; unfold store, load.
  - now apply K.
  - rewrite <- (length_rev bs). rewrite K by (rewrite length_rev; exact Hn).
    apply rev_involutive.
Qed.

Lemma load_range (o : byte_order) (bs : list byte) :
  List.length bs = sizeof_int64_t -> in_int64 (load o sizeof_int64_t bs).
Proof.
  intros Hlen.
  assert (K : forall l : list byte, List.length l = sizeof_int64_t ->
                                    in_int64 (to_signed sizeof_int64_t (le_combine l))).
  { intros l Hl. pose proof (le_combine_range l) as Hr. rewrite Hl in Hr.
    destruct (to_signed_range sizeof_int64_t (le_combine l)
                ltac:(unfold sizeof_int64_t; lia) Hr) as [Hs _].
    unfold in_int64, INT64_MIN, INT64_MAX, sizeof_int64_t in *.
    change (8 * Z.of_nat 8 - 1) with 63 in Hs. lia. }
  destruct o; unfold load; apply K; [|rewrite length_rev]; exact Hlen.
Qed.

Lemma load_inj (o : byte_order) (xs ys : list byte) :
  List.length xs = sizeof_int64_t -> List.length ys = sizeof_int64_t ->
  load o sizeof_int64_t xs = load o sizeof_int64_t ys -> xs = ys.
Proof.
  intros Hx Hy E.
  rewrite <- (store_load o xs), <- (store_load o ys)
    by (rewrite ?Hx, ?Hy; unfold sizeof_int64_t; lia).
  rewrite Hx, Hy, E. reflexivity.
Qed.

(** What [operator()] reads from a region of at least eight bytes. *)
Lemma Long_call_readable (o : byte_order) (v : Int) :
  (sizeof_int64_t <= List.length (_begin v))%nat ->
  Long_call o v = Some (load o sizeof_int64_t (firstn sizeof_int64_t (_begin v))).
Proof.
  intros H. unfold Long_call, call.
  destruct (Nat.ltb_spec (List.length (_begin v)) sizeof_int64_t); [lia | reflexivity].
Qed.

Lemma Long_call_short (o : byte_order) (v : Int) :
  (List.length (_begin v) < sizeof_int64_t)%nat -> Long_call o v = None.
Proof.
  intros H. unfold Long_call, call.
  destruct (Nat.ltb_spec (List.length (_begin v)) sizeof_int64_t); [reflexivity | lia].
Qed.

Lemma Long_call_Some_length (o : byte_order) (v : Int) (x : Z) :
  Long_call o v = Some x -> (sizeof_int64_t <= List.length (_begin v))%nat.
Proof.
  unfold Long_call, call.
  destruct (Nat.ltb_spec (List.length (_begin v)) sizeof_int64_t); [discriminate | auto].
Qed.

Lemma firstn_8_length (bs : list byte) :
  (sizeof_int64_t <= List.length bs)%nat ->
  List.length (firstn sizeof_int64_t bs) = sizeof_int64_t.
Proof. intros H. rewrite length_firstn. lia. Qed.

End BTreeMoreFacts.

Module BTreeExtras.
Import BTree BTreeFacts BTreePair BTreeMoreFacts.

(** X1: whatever eight bytes a view starts with, [operator()] of [Long]
    gives a value of the signed 64-bit range, and storing that value
    gives the same eight bytes back; a region shorter than eight bytes
    gives no value. *)
Theorem Long_call_in_range_and_back :
  forall (o : byte_order) (v : Int),
    ((sizeof_int64_t <= List.length (_begin v))%nat ->
     exists x, Long_call o v = Some x
               /\ in_int64 x
               /\ store o sizeof_int64_t x = firstn sizeof_int64_t (_begin v))
    /\ ((List.length (_begin v) < sizeof_int64_t)%nat -> Long_call o v = None).
Proof.
  intros o v. split.
  - intros H. eexists. split; [now apply Long_call_readable|].
    pose proof (firstn_8_length _ H) as Hl. split.
    + now apply load_range.
    + rewrite <- Hl at 1. rewrite <- Hl at 2. apply store_load. rewrite Hl.
      unfold sizeof_int64_t. lia.
  - apply Long_call_short.
Qed.

Lemma Long_call_in_range_and_back_witness :
  (exists x,
      Long_call BigEndian
        (mkInt [Byte.xff; Byte.xff; Byte.xff; Byte.xff; Byte.xff; Byte.xff; Byte.xff;
                Byte.xfe; Byte.x2a]) = Some x
      /\ in_int64 x)
  /\ Long_call BigEndian (mkInt [Byte.xff; Byte.xff]) = None.
Proof.
  destruct (Long_call_in_range_and_back BigEndian
              (mkInt [Byte.xff; Byte.xff; Byte.xff; Byte.xff; Byte.xff; Byte.xff;
                      Byte.xff; Byte.xfe; Byte.x2a])) as [Hread _].
  destruct (Long_call_in_range_and_back BigEndian (mkInt [Byte.xff; Byte.xff]))
    as [_ Hshort].
  split.
  - destruct (Hread ltac:(unfold sizeof_int64_t; cbn; lia)) as (x & Hx & Hr & _).
    exists x. split; assumption.
  - apply Hshort. unfold sizeof_int64_t. cbn. lia.
Defined.

(** X2: on two regions of at least eight bytes, [operator==] of [Long]
    answers true exactly when the first eight bytes of the two regions
    are the same bytes; what follows them plays no part. *)
Theorem Long_eq_iff_same_bytes :
  forall (o : byte_order) (x y : Int),
    (sizeof_int64_t <= List.length (_begin x))%nat ->
    (sizeof_int64_t <= List.length (_begin y))%nat ->
    exists r, Long_eq o x y = Some r
              /\ (r = true <->
                  firstn sizeof_int64_t (_begin x) = firstn sizeof_int64_t (_begin y)).
Proof.
  intros o x y Hx Hy. unfold Long_eq, eq.
  fold (Long_call o x). fold (Long_call o y).
  rewrite !Long_call_readable by assumption.
  eexists. split; [reflexivity|]. rewrite Z.eqb_eq. split.
  - apply load_inj; now apply firstn_8_length.
  - intros E. now rewrite E.
Qed.

Lemma Long_eq_iff_same_bytes_witness :
  Long_eq LittleEndian
    (mkInt (store LittleEndian sizeof_int64_t 7 ++ [Byte.x01]))
    (mkInt (store LittleEndian sizeof_int64_t 7 ++ [Byte.x02; Byte.x03])) = Some true.
Proof.
  destruct (Long_eq_iff_same_bytes LittleEndian
              (mkInt (store LittleEndian sizeof_int64_t 7 ++ [Byte.x01]))
              (mkInt (store LittleEndian sizeof_int64_t 7 ++ [Byte.x02; Byte.x03]))
              ltac:(unfold sizeof_int64_t; cbn; lia)
              ltac:(unfold sizeof_int64_t; cbn; lia)) as (r & Hr & Hiff).
  rewrite Hr. f_equal. apply Hiff. reflexivity.
Defined.

(** X3: on readable views the three comparisons of [Long] form a strict
    total order: [operator<] is irreflexive and transitive, [operator>]
    is [operator<] with the sides swapped, and for every two views
    exactly one of [<], [==], [>] answers true. *)
Theorem Long_comparisons_are_a_total_order :
  forall (o : byte_order) (x y z : Int),
    Long_lt o x x <> Some true
    /\ (Long_lt o x y = Some true -> Long_lt o y z = Some true ->
        Long_lt o x z = Some true)
    /\ Long_gt o x y = Long_lt o y x
    /\ ((sizeof_int64_t <= List.length (_begin x))%nat ->
        (sizeof_int64_t <= List.length (_begin y))%nat ->
        (Long_lt o x y = Some true /\ Long_eq o x y = Some false
         /\ Long_gt o x y = Some false)
        \/ (Long_lt o x y = Some false /\ Long_eq o x y = Some true
            /\ Long_gt o x y = Some false)
        \/ (Long_lt o x y = Some false /\ Long_eq o x y = Some false
            /\ Long_gt o x y = Some true)).
Proof.
  intros o x y z. unfold Long_lt, Long_gt, Long_eq, lt, gt, eq.
  fold (Long_call o x). fold (Long_call o y). fold (Long_call o z).
  repeat split.
  - destruct (Long_call o x) as [a|]; [|discriminate].
    rewrite Z.ltb_irrefl. discriminate.
  - destruct (Long_call o x) as [a|], (Long_call o y) as [b|],
      (Long_call o z) as [c|]; try discriminate.
    intros H1 H2. injection H1 as H1. injection H2 as H2.
    apply Z.ltb_lt in H1, H2. f_equal. apply Z.ltb_lt. lia.
  - destruct (Long_call o x) as [a|], (Long_call o y) as [b|]; try reflexivity.
    now rewrite Z.gtb_ltb.
  - intros Hx Hy. rewrite !Long_call_readable by assumption.
    set (a := load o sizeof_int64_t (firstn sizeof_int64_t (_begin x))).
    set (b := load o sizeof_int64_t (firstn sizeof_int64_t (_begin y))).
    rewrite Z.gtb_ltb.
    destruct (Z.ltb_spec a b), (Z.eqb_spec a b), (Z.ltb_spec b a); try lia; tauto.
Qed.

Lemma Long_comparisons_are_a_total_order_witness :
  Long_lt LittleEndian (mkInt (store LittleEndian sizeof_int64_t (-9)))
          (mkInt (store LittleEndian sizeof_int64_t 4)) = Some true
  /\ Long_gt LittleEndian (mkInt (store LittleEndian sizeof_int64_t 4))
             (mkInt (store LittleEndian sizeof_int64_t (-9)))
     = Long_lt LittleEndian (mkInt (store LittleEndian sizeof_int64_t (-9)))
               (mkInt (store LittleEndian sizeof_int64_t 4)).
Proof.
  destruct (Long_comparisons_are_a_total_order LittleEndian
              (mkInt (store LittleEndian sizeof_int64_t 4))
              (mkInt (store LittleEndian sizeof_int64_t (-9)))
              (mkInt (store LittleEndian sizeof_int64_t 4)))
    as (_ & _ & Hswap & Htri).
  split; [|exact Hswap].
  destruct (Htri ltac:(unfold sizeof_int64_t; cbn; lia)
                 ltac:(unfold sizeof_int64_t; cbn; lia))
    as [(H & _) | [(_ & H & _) | (_ & _ & H)]].
  - discriminate H.
  - discriminate H.
  - rewrite <- Hswap. exact H.
Defined.

(** X4: on views over the stored [a] and the stored [b], each followed
    by any memory, [operator>] of [Long] answers [a > b] and
    [operator==] answers [a = b], for all signed 64-bit [a] and [b] and
    on either byte order. *)
Theorem Long_gt_eq_agree_with_integers :
  forall (o : byte_order) (a b : Z) (ra rb : list byte),
    in_int64 a -> in_int64 b ->
    Long_gt o (mkInt (store o sizeof_int64_t a ++ ra))
              (mkInt (store o sizeof_int64_t b ++ rb)) = Some (a >? b)
    /\ Long_eq o (mkInt (store o sizeof_int64_t a ++ ra))
                 (mkInt (store o sizeof_int64_t b ++ rb)) = Some (a =? b).
Proof.
  intros o a b ra rb Ha Hb. unfold Long_gt, Long_eq, gt, eq.
  fold (Long_call o (mkInt (store o sizeof_int64_t a ++ ra))).
  fold (Long_call o (mkInt (store o sizeof_int64_t b ++ rb))).
  rewrite !Long_call_store by assumption. split; reflexivity.
Qed.

Lemma Long_gt_eq_agree_with_integers_witness :
  in_int64 (-1) /\ in_int64 (-2)
  /\ Long_gt BigEndian (mkInt (store BigEndian sizeof_int64_t (-1)))
             (mkInt (store BigEndian sizeof_int64_t (-2) ++ [Byte.x00])) = Some true.
Proof.
  assert (Ha : in_int64 (-1)) by (unfold in_int64, INT64_MIN, INT64_MAX; lia).
  assert (Hb : in_int64 (-2)) by (unfold in_int64, INT64_MIN, INT64_MAX; lia).
  split; [exact Ha|]. split; [exact Hb|].
  pose proof (proj1 (Long_gt_eq_agree_with_integers BigEndian (-1) (-2) [] [Byte.x00]
                       Ha Hb)) as H.
  rewrite app_nil_r in H. exact H.
Defined.

(** A pair view whose region starts with the stored pair decodes to
    it, whatever memory follows. *)
Lemma LongPair_call_store (o : byte_order) (a1 a2 : Z) (rest : list byte) :
  in_int64 a1 -> in_int64 a2 ->
  LongPair_call o (mkInt (store_pair o (a1, a2) ++ rest)) = Some (a1, a2).
Proof.
  intros H1 H2. unfold LongPair_call, store_pair. cbn [_begin fst snd].
  rewrite !length_app, !store_length.
  destruct (Nat.ltb_spec (sizeof_int64_t + sizeof_int64_t + List.length rest) sizeof_pair)
    as [H|_]; [unfold sizeof_int64_t, sizeof_pair in H; lia|].
  rewrite <- app_assoc.
  rewrite firstn_app, store_length, Nat.sub_diag, firstn_O, app_nil_r.
  rewrite firstn_all2 by (rewrite store_length; lia).
  rewrite skipn_app, store_length, Nat.sub_diag, skipn_O.
  rewrite skipn_all2 by (rewrite store_length; lia). cbn [app].
  rewrite firstn_app, store_length, Nat.sub_diag, firstn_O, app_nil_r.
  rewrite firstn_all2 by (rewrite store_length; lia).
  assert (R : forall x, in_int64 x -> load o sizeof_int64_t (store o sizeof_int64_t x) = x).
  { intros x Hx. apply load_store; [unfold sizeof_int64_t; lia|].
    unfold in_int64, INT64_MIN, INT64_MAX, sizeof_int64_t in *.
    change (8 * Z.of_nat 8 - 1) with 63. lia. }
  now rewrite !R.
Qed.

(** X5: [LongPair] inherits the comparisons of [std::pair]: on views
    over two stored pairs, [operator<] answers true exactly when the
    first members are in order, or are equal and the second members are
    in order; [operator==] exactly when both members are equal;
    [operator>] is [operator<] with the sides swapped; and exactly one of
    the three holds, so the order is total. *)
Theorem LongPair_lt_is_lexicographic :
  forall (o : byte_order) (a1 a2 b1 b2 : Z) (ra rb : list byte),
    in_int64 a1 -> in_int64 a2 -> in_int64 b1 -> in_int64 b2 ->
    let x := mkInt (store_pair o (a1, a2) ++ ra) in
    let y := mkInt (store_pair o (b1, b2) ++ rb) in
    exists lt_xy eq_xy gt_xy,
      LongPair_lt o x y = Some lt_xy
      /\ LongPair_eq o x y = Some eq_xy
      /\ LongPair_gt o x y = Some gt_xy
      /\ LongPair_lt o y x = Some gt_xy
      /\ (lt_xy = true <-> a1 < b1 \/ (a1 = b1 /\ a2 < b2))
      /\ (eq_xy = true <-> a1 = b1 /\ a2 = b2)
      /\ (gt_xy = true <-> b1 < a1 \/ (b1 = a1 /\ b2 < a2))
      /\ (lt_xy = true \/ eq_xy = true \/ gt_xy = true).
Proof.
  intros o a1 a2 b1 b2 ra rb Ha1 Ha2 Hb1 Hb2 x y. subst x y.
  unfold LongPair_lt, LongPair_eq, LongPair_gt.
  rewrite !LongPair_call_store by assumption.
  do 3 eexists. repeat (split; [reflexivity|]).
  unfold pair_gt, pair_lt, pair_eq. cbn [fst snd].
  destruct (Z.ltb_spec a1 b1), (Z.ltb_spec b1 a1), (Z.ltb_spec a2 b2),
    (Z.ltb_spec b2 a2), (Z.eqb_spec a1 b1), (Z.eqb_spec a2 b2);
    cbn; try lia; repeat split; intros; try lia; try discriminate; auto.
Qed.

Lemma LongPair_lt_is_lexicographic_witness :
  in_int64 3 /\ in_int64 (-7) /\ in_int64 5
  /\ LongPair_lt LittleEndian
       (mkInt (store_pair LittleEndian (3, 5)))
       (mkInt (store_pair LittleEndian (3, -7) ++ [Byte.x00])) = Some false
  /\ LongPair_gt LittleEndian
       (mkInt (store_pair LittleEndian (3, 5)))
       (mkInt (store_pair LittleEndian (3, -7) ++ [Byte.x00])) = Some true.
Proof.
  assert (H3 : in_int64 3) by (unfold in_int64, INT64_MIN, INT64_MAX; lia).
  assert (H7 : in_int64 (-7)) by (unfold in_int64, INT64_MIN, INT64_MAX; lia).
  assert (H5 : in_int64 5) by (unfold in_int64, INT64_MIN, INT64_MAX; lia).
  split; [exact H3|]. split; [exact H7|]. split; [exact H5|].
  destruct (LongPair_lt_is_lexicographic LittleEndian 3 5 3 (-7) [] [Byte.x00]
              H3 H5 H3 H7)
    as (l & e & g & Hl & He & Hg & _ & Hlt & _ & Hgt & _).
  cbv zeta in Hl, Hg. rewrite app_nil_r in Hl, Hg. rewrite Hl, Hg. split; f_equal.
  - destruct l; [|reflexivity]. exfalso. destruct Hlt as [Hlt _].
    specialize (Hlt eq_refl). lia.
  - apply Hgt. right. split; lia.
Defined.

End BTreeExtras.

(* ===================================================================== *)
(** ** Further properties of the worker *)
(* ===================================================================== *)

Module WorkerMoreFacts.
Import LocalSession LocalSessionFacts WorkerLifecycle.
Local Open Scope session_scope.

Lemma index_of_nat {A : Type} (a : list A) (n : nat) :
  index a (Z.of_nat n) = nth_error a n.
Proof.
  unfold index. destruct (Z.ltb_spec (Z.of_nat n) 0); [lia|].
  now rewrite Nat2Z.id.
Qed.

Lemma index_app_middle {A : Type} (done rest : list A) (x : A) :
  index (done ++ x :: rest) (Z.of_nat (List.length done)) = Some x.
Proof.
  rewrite index_of_nat, nth_error_app2 by lia.
  now rewrite Nat.sub_diag.
Qed.

Lemma update_nth_app_middle {A : Type} (done rest : list A) (x v : A) :
  update_nth (done ++ x :: rest) (List.length done) v = done ++ v :: rest.
Proof. induction done as [|d done IH]; simpl; [reflexivity | now rewrite IH]. Qed.

Lemma assign_app_middle {A : Type} (done rest : list A) (x v : A) :
  assign (done ++ x :: rest) (Z.of_nat (List.length done)) v = done ++ v :: rest.
Proof.
  unfold assign. destruct (Z.ltb_spec (Z.of_nat (List.length done)) 0); [lia|].
  rewrite Nat2Z.id. apply update_nth_app_middle.
Qed.

Lemma index_beyond {A : Type} (a : list A) (i : Z) :
  Z.of_nat (List.length a) <= i -> index a i = None.
Proof.
  intros H. unfold index. destruct (Z.ltb_spec i 0); [reflexivity|].
  apply nth_error_None. lia.
Qed.

Lemma skipn_cons_nth {A : Type} (l : list A) :
  forall n x, nth_error l n = Some x -> skipn n l = x :: skipn (S n) l.
Proof.
  induction l as [|y l IH]; intros [|n] x H; simpl in *; try discriminate.
  - now injection H as ->.
  - now apply IH.
Qed.

Lemma indices_cons (first count : nat) :
  indices first (S count) = Z.of_nat first :: indices (S first) count.
Proof. reflexivity. Qed.

Lemma world_eta (m : world) (a : list ftgs_outstream) :
  out_streams (worker m) = a ->
  mk_world (set_out_streams (worker m) a) (session m) (calls m ++ []) = m.
Proof.
  intros <-. destruct m as [[n a' e] s c]. cbn. now rewrite app_nil_r.
Qed.

Lemma substring_length_le (s : string) :
  forall n, (String.length (substring 0 n s) <= n)%nat.
Proof.
  induction s as [|c s IH]; intros [|n]; simpl; try lia.
  specialize (IH n). lia.
Qed.

Section Loops.
Context {ext : Externals}.

(** The loop of [worker_init] over an array whose first streams are
    [done] and whose remaining [todo] are still zeroed: it initialises
    them in order from the handles, or runs off the handle array. *)
Lemma worker_init_loop_run (socket_fds : list Z) (todo : nat) :
  forall (done : list ftgs_outstream) (m : world),
    out_streams (worker m) = done ++ repeat zero_stream todo ->
    (List.length done <= List.length socket_fds)%nat ->
    worker_init_loop socket_fds todo (Z.of_nat (List.length done)) m
    = if (List.length done + todo <=? List.length socket_fds)%nat
      then Ok tt (mk_world
                    (set_out_streams (worker m)
                       (done ++ map (stream_init zero_stream)
                                    (firstn todo (skipn (List.length done) socket_fds))))
                    (session m)
                    (calls m ++ map Call_stream_init (indices (List.length done) todo)))
      else OutOfBounds (Z.of_nat (List.length socket_fds)).
Proof.
  induction todo as [|todo IH]; intros done m Hm Hlen.
  - cbn [worker_init_loop repeat firstn map indices seq].
    destruct (Nat.leb_spec (List.length done + 0) (List.length socket_fds)); [|lia].
    unfold ret. f_equal. symmetry. rewrite app_nil_r in *. now apply world_eta.
  - cbn [worker_init_loop repeat] in *.
    rewrite index_of_nat.
    destruct (nth_error socket_fds (List.length done)) as [fd|] eqn:Hfd.
    + assert (Hlt : (List.length done < List.length socket_fds)%nat)
        by (apply nth_error_Some; congruence).
      match goal with |- _ = ?R => remember R as rhs eqn:Hrhs end.
      unfold load_stream, store_stream, bind, ret, get_worker, put_worker, call,
        undefined. cbn.
      repeat (rewrite ?Hm;
              rewrite (index_app_middle done (repeat zero_stream todo) zero_stream);
              cbn).
      rewrite ?Hm, assign_app_middle.
      replace (Z.of_nat (List.length done) + 1)
        with (Z.of_nat (List.length (done ++ [stream_init zero_stream fd])))
        by (rewrite length_app; cbn; lia).
      rewrite IH; cbn [worker out_streams set_out_streams session calls num_streams error].
      * subst rhs. rewrite length_app. cbn [List.length].
        replace (List.length done + 1 + todo)%nat with (List.length done + S todo)%nat
          by lia.
        destruct (Nat.leb_spec (List.length done + S todo) (List.length socket_fds));
          [|reflexivity].
        rewrite (skipn_cons_nth _ _ _ Hfd). cbn [firstn map].
        rewrite indices_cons. cbn [map].
        replace (List.length done + 1)%nat with (S (List.length done)) by lia.
        now rewrite <- !app_assoc.
      * now rewrite <- app_assoc.
      * rewrite length_app. cbn. lia.
    + apply nth_error_None in Hfd.
      assert (List.length done = List.length socket_fds) by lia.
      unfold undefined.
      destruct (Nat.leb_spec (List.length done + S todo) (List.length socket_fds));
        [lia|]. congruence.
Qed.

(** [worker_init] as one equation. *)
Lemma worker_init_eq (socket_fds : list Z) (num_sockets : Z) (m : world) :
  worker_init socket_fds num_sockets m
  = if (Z.to_nat num_sockets <=? List.length socket_fds)%nat
    then Ok tt (mk_world
                  (mk_worker num_sockets
                     (map (stream_init zero_stream)
                          (firstn (Z.to_nat num_sockets) socket_fds))
                     (error (worker m)))
                  (session m)
                  (calls m ++ map Call_stream_init (indices 0 (Z.to_nat num_sockets))))
    else OutOfBounds (Z.of_nat (List.length socket_fds)).
Proof.
  unfold worker_init, bind, get_worker, put_worker. cbn.
  change 0 with (Z.of_nat (List.length (@nil ftgs_outstream))).
  rewrite worker_init_loop_run with (done := []); cbn; try lia; reflexivity.
Qed.

End Loops.

Section DestroyLoop.
Variable stream_destroy : ftgs_outstream -> ftgs_outstream.

(** The loop of [worker_destroy] over an array whose first streams are
    [done]: it releases the next [todo] streams in place, one call of
    [stream_destroy] per index in ascending order, or runs off the
    array. *)
Lemma worker_destroy_loop_run (todo : nat) :
  forall (done rest : list ftgs_outstream) (m : world),
    out_streams (worker m) = done ++ rest ->
    worker_destroy_loop stream_destroy todo (Z.of_nat (List.length done)) m
    = if (todo <=? List.length rest)%nat
      then Ok tt (mk_world
                    (set_out_streams (worker m)
                       (done ++ map stream_destroy (firstn todo rest) ++ skipn todo rest))
                    (session m)
                    (calls m ++ map Call_stream_destroy (indices (List.length done) todo)))
      else OutOfBounds (Z.of_nat (List.length done + List.length rest)).
Proof.
  induction todo as [|todo IH]; intros done rest m Hm.
  - cbn. unfold ret. f_equal. rewrite <- Hm, app_nil_r. now destruct m as [[n a e] s c].
  - cbn [worker_destroy_loop].
    unfold load_stream, store_stream, bind, ret, get_worker, put_worker, call, undefined.
    destruct rest as [|st rest].
    + cbn. rewrite Hm, app_nil_r, index_beyond by lia. cbn. f_equal. lia.
    + match goal with |- _ = ?R => remember R as rhs eqn:Hrhs end.
      cbn.
      repeat (rewrite ?Hm; rewrite (index_app_middle done rest st); cbn).
      rewrite ?Hm, assign_app_middle.
      replace (Z.of_nat (List.length done) + 1)
        with (Z.of_nat (List.length (done ++ [stream_destroy st])))
        by (rewrite length_app; cbn; lia).
      rewrite IH with (rest := rest);
        cbn [worker out_streams set_out_streams session calls num_streams error].
      * subst rhs. cbn [List.length firstn skipn map Nat.leb].
        destruct (Nat.leb_spec todo (List.length rest)).
        -- rewrite indices_cons. cbn [map]. rewrite length_app. cbn [List.length].
           replace (List.length done + 1)%nat with (S (List.length done)) by lia.
           now rewrite <- !app_assoc.
        -- f_equal. rewrite length_app. cbn. lia.
      * now rewrite <- app_assoc.
Qed.

(** [worker_destroy] as one equation. *)
Lemma worker_destroy_eq (m : world) :
  worker_destroy stream_destroy m
  = if (Z.to_nat (num_streams (worker m)) <=? List.length (out_streams (worker m)))%nat
    then Ok tt (mk_world (set_out_streams (worker m) []) (session m)
                  (calls m ++ map Call_stream_destroy
                                  (indices 0 (Z.to_nat (num_streams (worker m))))))
    else OutOfBounds (Z.of_nat (List.length (out_streams (worker m)))).
Proof.
  unfold worker_destroy, free_out_streams, bind at 1 2, get_worker at 1.
  change 0 with (Z.of_nat (List.length (@nil ftgs_outstream))).
  rewrite worker_destroy_loop_run with (done := []) (rest := out_streams (worker m))
    by reflexivity.
  destruct (Z.to_nat (num_streams (worker m)) <=? List.length (out_streams (worker m)))%nat;
    reflexivity.
Qed.

End DestroyLoop.

End WorkerMoreFacts.

Module WorkerExtras.
Import LocalSession LocalSessionFacts WorkerLifecycle WorkerMoreFacts.
Local Open Scope session_scope.

(** X6: given at least [num_sockets] handles (a count of zero or below
    included), [worker_init] stores the count as given, leaves one stream
    per handle, the i-th being [stream_init] of a zeroed stream and the
    i-th handle, calls [stream_init] once per index in ascending order,
    and touches neither the error slot nor the session.  The count is the
    extent of the array exactly when it is not negative. *)
Theorem worker_init_builds_streams :
  forall (ext : Externals) (socket_fds : list Z) (num_sockets : Z) (m : world),
    num_sockets <= Z.of_nat (List.length socket_fds) ->
    exists m',
      worker_init socket_fds num_sockets m = Ok tt m'
      /\ num_streams (worker m') = num_sockets
      /\ out_streams (worker m')
         = map (stream_init zero_stream) (firstn (Z.to_nat num_sockets) socket_fds)
      /\ error (worker m') = error (worker m)
      /\ session m' = session m
      /\ calls m' = calls m ++ map Call_stream_init (indices 0 (Z.to_nat num_sockets))
      /\ (worker_ok (worker m') <-> 0 <= num_sockets).
Proof.
  intros ext socket_fds num_sockets m H. rewrite worker_init_eq.
  destruct (Nat.leb_spec (Z.to_nat num_sockets) (List.length socket_fds)); [|lia].
  eexists. split; [reflexivity|]. cbn. repeat split; auto.
  - unfold worker_ok. cbn. lia.
  - unfold worker_ok. cbn. rewrite length_map, length_firstn. lia.
Qed.

Lemma worker_init_builds_streams_witness :
  2 <= Z.of_nat (List.length [7; 8; 9])
  /\ exists m',
      worker_init (ext := scripted 0 0 0 0 no_error) [7; 8; 9] 2
                  (mk_world (mk_worker 0 [] broken_pipe) blank_session []) = Ok tt m'
      /\ out_streams (worker m') = [idle_stream 7; idle_stream 8]
      /\ error (worker m') = broken_pipe.
Proof.
  split; [cbn; lia|].
  destruct (worker_init_builds_streams (scripted 0 0 0 0 no_error) [7; 8; 9] 2
              (mk_world (mk_worker 0 [] broken_pipe) blank_session [])
              ltac:(cbn; lia))
    as (m' & Hrun & _ & Hs & He & _).
  exists m'. repeat split; assumption.
Defined.

(** X7: with fewer handles than [num_sockets], [worker_init] reads
    [socket_fds] one past its last element. *)
Theorem worker_init_too_few_handles :
  forall (ext : Externals) (socket_fds : list Z) (num_sockets : Z) (m : world),
    Z.of_nat (List.length socket_fds) < num_sockets ->
    worker_init socket_fds num_sockets m
    = OutOfBounds (Z.of_nat (List.length socket_fds)).
Proof.
  intros ext socket_fds num_sockets m H. rewrite worker_init_eq.
  destruct (Nat.leb_spec (Z.to_nat num_sockets) (List.length socket_fds)); [lia|].
  reflexivity.
Qed.

Lemma worker_init_too_few_handles_witness :
  Z.of_nat (List.length [7]) < 2
  /\ worker_init (ext := scripted 0 0 0 0 no_error) [7] 2 start_world = OutOfBounds 1.
Proof.
  split; [cbn; lia|].
  exact (worker_init_too_few_handles (scripted 0 0 0 0 no_error) [7] 2 start_world
           ltac:(cbn; lia)).
Defined.

Section Shape.
Context {ext : Externals}.

Lemma rejected_same_shape (m : world) (text : string) : same_shape m (rejected m text).
Proof. repeat split. Qed.

Lemma delegated_same_shape (m : world) (i : Z) (e : event) (s' : ftgs_outstream) :
  same_shape m (delegated m i e s').
Proof. repeat split. cbn. apply assign_length. Qed.

Lemma handed_over_same_shape (m : world) (i : Z) (e : event) (s' : ftgs_outstream) :
  same_shape m (handed_over m i e s').
Proof. repeat split. cbn. apply assign_length. Qed.

Lemma same_shape_worker_ok (m m' : world) :
  same_shape m m' -> worker_ok (worker m) -> worker_ok (worker m').
Proof. unfold same_shape, worker_ok. intros (Hn & Hl & _) H. now rewrite Hn, Hl. Qed.

(** Each wrapper, on any memory and index, ends in one of four ways. *)
Lemma worker_start_field_cases m field_name len term_type stream_num :
  (num_streams (worker m) <= stream_num
   /\ worker_start_field field_name len term_type stream_num m
      = Ok (-1) (rejected m (invalid_socket_long stream_num (num_streams (worker m)))))
  \/ (stream_num < num_streams (worker m)
      /\ index (out_streams (worker m)) stream_num = None
      /\ worker_start_field field_name len term_type stream_num m
         = OutOfBounds stream_num)
  \/ (exists s s',
         stream_num < num_streams (worker m)
         /\ index (out_streams (worker m)) stream_num = Some s
         /\ write_field_start s field_name len term_type = (0, s')
         /\ worker_start_field field_name len term_type stream_num m
            = Ok 0 (delegated m stream_num (Call_write_field_start stream_num) s'))
  \/ (exists s rc s',
         stream_num < num_streams (worker m)
         /\ index (out_streams (worker m)) stream_num = Some s
         /\ write_field_start s field_name len term_type = (rc, s')
         /\ rc <> 0
         /\ worker_start_field field_name len term_type stream_num m
            = Ok rc (handed_over m stream_num (Call_write_field_start stream_num) s')).
Proof.
  destruct (Z_le_gt_dec (num_streams (worker m)) stream_num) as [H|H].
  - left. split; [assumption|]. now apply worker_start_field_invalid.
  - right. assert (Hlt : stream_num < num_streams (worker m)) by lia.
    destruct (index (out_streams (worker m)) stream_num) as [s|] eqn:Hs.
    + right. destruct (write_field_start s field_name len term_type) as [rc s'] eqn:Hw.
      rewrite (worker_start_field_valid _ _ _ _ _ _ _ _ Hlt Hs Hw).
      destruct (Z.eqb_spec rc 0) as [->|Hrc].
      * left. exists s, s'. auto.
      * right. exists s, rc, s'. auto.
    + left. repeat split; auto. now apply worker_start_field_outside.
Qed.

Lemma worker_end_field_cases m stream_num :
  (num_streams (worker m) <= stream_num
   /\ worker_end_field stream_num m = Ok (-1) (rejected m invalid_socket_short))
  \/ (stream_num < num_streams (worker m)
      /\ index (out_streams (worker m)) stream_num = None
      /\ worker_end_field stream_num m = OutOfBounds stream_num)
  \/ (exists s rc s',
         stream_num < num_streams (worker m)
         /\ index (out_streams (worker m)) stream_num = Some s
         /\ write_field_end s = (rc, s')
         /\ rc <> -1
         /\ worker_end_field stream_num m
            = Ok 0 (delegated m stream_num (Call_write_field_end stream_num) s'))
  \/ (exists s s',
         stream_num < num_streams (worker m)
         /\ index (out_streams (worker m)) stream_num = Some s
         /\ write_field_end s = (-1, s')
         /\ worker_end_field stream_num m
            = Ok (-1) (handed_over m stream_num (Call_write_field_end stream_num) s')).
Proof.
  destruct (Z_le_gt_dec (num_streams (worker m)) stream_num) as [H|H].
  - left. split; [assumption|]. now apply worker_end_field_invalid.
  - right. assert (Hlt : stream_num < num_streams (worker m)) by lia.
    destruct (index (out_streams (worker m)) stream_num) as [s|] eqn:Hs.
    + right. destruct (write_field_end s) as [rc s'] eqn:Hw.
      rewrite (worker_end_field_valid _ _ _ _ _ Hlt Hs Hw).
      destruct (Z.eqb_spec rc (-1)) as [->|Hrc].
      * right. exists s, s'. auto.
      * left. exists s, rc, s'. auto.
    + left. repeat split; auto. now apply worker_end_field_outside.
Qed.

Lemma worker_end_stream_cases m stream_num :
  (num_streams (worker m) <= stream_num
   /\ worker_end_stream stream_num m = Ok (-1) (rejected m invalid_socket_short))
  \/ (stream_num < num_streams (worker m)
      /\ index (out_streams (worker m)) stream_num = None
      /\ worker_end_stream stream_num m = OutOfBounds stream_num)
  \/ (exists s rc s',
         stream_num < num_streams (worker m)
         /\ index (out_streams (worker m)) stream_num = Some s
         /\ write_stream_end s = (rc, s')
         /\ rc <> -1
         /\ worker_end_stream stream_num m
            = Ok 0 (delegated m stream_num (Call_write_stream_end stream_num) s'))
  \/ (exists s s',
         stream_num < num_streams (worker m)
         /\ index (out_streams (worker m)) stream_num = Some s
         /\ write_stream_end s = (-1, s')
         /\ worker_end_stream stream_num m
            = Ok (-1) (handed_over m stream_num (Call_write_stream_end stream_num) s')).
Proof.
  destruct (Z_le_gt_dec (num_streams (worker m)) stream_num) as [H|H].
  - left. split; [assumption|]. now apply worker_end_stream_invalid.
  - right. assert (Hlt : stream_num < num_streams (worker m)) by lia.
    destruct (index (out_streams (worker m)) stream_num) as [s|] eqn:Hs.
    + right. destruct (write_stream_end s) as [rc s'] eqn:Hw.
      rewrite (worker_end_stream_valid _ _ _ _ _ Hlt Hs Hw).
      destruct (Z.eqb_spec rc (-1)) as [->|Hrc].
      * right. exists s, s'. auto.
      * left. exists s, rc, s'. auto.
    + left. repeat split; auto. now apply worker_end_stream_outside.
Qed.

End Shape.

(** X8: whenever one of the three wrappers returns, whatever its
    result, the worker has the same stream count and an array of the
    same extent, and the session is unchanged; so a worker whose count
    is the extent of its array stays one. *)
Theorem wrappers_keep_the_shape :
  forall (ext : Externals) (m m' : world) (field_name : string)
         (len term_type stream_num r : Z),
    (worker_start_field field_name len term_type stream_num m = Ok r m' ->
     same_shape m m' /\ (worker_ok (worker m) -> worker_ok (worker m')))
    /\ (worker_end_field stream_num m = Ok r m' ->
        same_shape m m' /\ (worker_ok (worker m) -> worker_ok (worker m')))
    /\ (worker_end_stream stream_num m = Ok r m' ->
        same_shape m m' /\ (worker_ok (worker m) -> worker_ok (worker m'))).
Proof.
  intros ext m m' field_name len term_type stream_num r.
  assert (K : forall m0, same_shape m m0 ->
                same_shape m m0 /\ (worker_ok (worker m) -> worker_ok (worker m0))).
  { intros m0 H. split; [exact H | now apply same_shape_worker_ok]. }
  split; [|split]; intros Hrun.
  - destruct (worker_start_field_cases m field_name len term_type stream_num)
      as [(_ & E) | [(_ & _ & E) | [(s & s' & _ & _ & _ & E)
                                   | (s & rc & s' & _ & _ & _ & _ & E)]]];
      rewrite E in Hrun; try discriminate; injection Hrun as _ <-; apply K.
    + apply rejected_same_shape.
    + apply delegated_same_shape.
    + apply handed_over_same_shape.
  - destruct (worker_end_field_cases m stream_num)
      as [(_ & E) | [(_ & _ & E) | [(s & rc & s' & _ & _ & _ & _ & E)
                                   | (s & s' & _ & _ & _ & E)]]];
      rewrite E in Hrun; try discriminate; injection Hrun as _ <-; apply K.
    + apply rejected_same_shape.
    + apply delegated_same_shape.
    + apply handed_over_same_shape.
  - destruct (worker_end_stream_cases m stream_num)
      as [(_ & E) | [(_ & _ & E) | [(s & rc & s' & _ & _ & _ & _ & E)
                                   | (s & s' & _ & _ & _ & E)]]];
      rewrite E in Hrun; try discriminate; injection Hrun as _ <-; apply K.
    + apply rejected_same_shape.
    + apply delegated_same_shape.
    + apply handed_over_same_shape.
Qed.

Lemma wrappers_keep_the_shape_witness :
  exists m',
    worker_end_field (ext := scripted 0 (-1) 0 0 broken_pipe) 1 start_world = Ok (-1) m'
    /\ same_shape start_world m'
    /\ worker_ok (worker m').
Proof.
  exists (handed_over start_world 1
            (Call_write_field_end 1) (capture (idle_stream 8) broken_pipe)).
  split; [reflexivity|].
  destruct (wrappers_keep_the_shape (scripted 0 (-1) 0 0 broken_pipe) start_world
              (handed_over start_world 1
                 (Call_write_field_end 1) (capture (idle_stream 8) broken_pipe))
              ""%string 0 0 1 (-1)) as (_ & Hend & _).
  destruct (Hend eq_refl) as (Hshape & Hok).
  split; [exact Hshape|]. apply Hok. reflexivity.
Defined.

(** X9: on a worker whose stream count is the extent of its array, each
    wrapper indexes the array out of bounds exactly when the stream
    index is negative: every index from 0 up is either served or
    rejected. *)
Theorem wrappers_out_of_bounds_iff_negative :
  forall (ext : Externals) (m : world) (field_name : string)
         (len term_type stream_num : Z),
    worker_ok (worker m) ->
    ((exists i, worker_start_field field_name len term_type stream_num m = OutOfBounds i)
     <-> stream_num < 0)
    /\ ((exists i, worker_end_field stream_num m = OutOfBounds i) <-> stream_num < 0)
    /\ ((exists i, worker_end_stream stream_num m = OutOfBounds i) <-> stream_num < 0).
Proof.
  intros ext m field_name len term_type stream_num Hok.
  assert (Hn : 0 <= num_streams (worker m)) by (unfold worker_ok in Hok; lia).
  assert (Hin : stream_num < num_streams (worker m) ->
                index (out_streams (worker m)) stream_num = None -> stream_num < 0).
  { intros Hlt Hnone. destruct (Z_lt_le_dec stream_num 0) as [|Hge]; [assumption|].
    destruct (index_in_range (out_streams (worker m)) stream_num) as [x Hx];
      [unfold worker_ok in Hok; lia | congruence]. }
  split; [|split]; split.
  - intros [i Hi].
    destruct (worker_start_field_cases m field_name len term_type stream_num)
      as [(_ & E) | [(Hlt & Hnone & _) | [(s & s' & _ & _ & _ & E)
                                         | (s & rc & s' & _ & _ & _ & _ & E)]]];
      try (rewrite E in Hi; discriminate). now apply Hin.
  - intros Hneg. exists stream_num.
    apply worker_start_field_outside; [lia | now apply index_negative].
  - intros [i Hi].
    destruct (worker_end_field_cases m stream_num)
      as [(_ & E) | [(Hlt & Hnone & _) | [(s & rc & s' & _ & _ & _ & _ & E)
                                         | (s & s' & _ & _ & _ & E)]]];
      try (rewrite E in Hi; discriminate). now apply Hin.
  - intros Hneg. exists stream_num.
    apply worker_end_field_outside; [lia | now apply index_negative].
  - intros [i Hi].
    destruct (worker_end_stream_cases m stream_num)
      as [(_ & E) | [(Hlt & Hnone & _) | [(s & rc & s' & _ & _ & _ & _ & E)
                                         | (s & s' & _ & _ & _ & E)]]];
      try (rewrite E in Hi; discriminate). now apply Hin.
  - intros Hneg. exists stream_num.
    apply worker_end_stream_outside; [lia | now apply index_negative].
Qed.

Lemma wrappers_out_of_bounds_iff_negative_witness :
  worker_ok (worker start_world)
  /\ ~ (exists i, worker_start_field (ext := scripted 0 0 0 0 no_error) "age" 3 1 1
                                      start_world = OutOfBounds i)
  /\ exists i, worker_end_stream (ext := scripted 0 0 0 0 no_error) (-3) start_world
               = OutOfBounds i.
Proof.
  split; [reflexivity|].
  split.
  - destruct (wrappers_out_of_bounds_iff_negative (scripted 0 0 0 0 no_error)
                start_world "age" 3 1 1 eq_refl) as ((Hstart & _) & _).
    intros H. apply Hstart in H. lia.
  - destruct (wrappers_out_of_bounds_iff_negative (scripted 0 0 0 0 no_error)
                start_world "age" 3 1 (-3) eq_refl) as (_ & _ & (_ & Hclose)).
    apply Hclose. lia.
Defined.

(** X10: when the delegated writer succeeds (code 0), the wrapper
    returns 0 and never touches the worker's error slot, so an error
    left there by an earlier call stays; the addressed stream is what the
    writer left, every other stream is as before, and exactly one call
    to the writer was made. *)
Theorem wrapper_success_keeps_the_error_slot :
  forall (ext : Externals) (m : world) (stream_num : Z) (s : ftgs_outstream),
    stream_num < num_streams (worker m) ->
    index (out_streams (worker m)) stream_num = Some s ->
    (forall field_name len term_type s',
        write_field_start s field_name len term_type = (0, s') ->
        exists m',
          worker_start_field field_name len term_type stream_num m = Ok 0 m'
          /\ error (worker m') = error (worker m)
          /\ index (out_streams (worker m')) stream_num = Some s'
          /\ others_untouched m m' stream_num
          /\ calls m' = calls m ++ [Call_write_field_start stream_num])
    /\ (forall s',
          write_field_end s = (0, s') ->
          exists m',
            worker_end_field stream_num m = Ok 0 m'
            /\ error (worker m') = error (worker m)
            /\ index (out_streams (worker m')) stream_num = Some s'
            /\ others_untouched m m' stream_num
            /\ calls m' = calls m ++ [Call_write_field_end stream_num])
    /\ (forall s',
          write_stream_end s = (0, s') ->
          exists m',
            worker_end_stream stream_num m = Ok 0 m'
            /\ error (worker m') = error (worker m)
            /\ index (out_streams (worker m')) stream_num = Some s'
            /\ others_untouched m m' stream_num
            /\ calls m' = calls m ++ [Call_write_stream_end stream_num]).
Proof.
  intros ext m stream_num s Hlt Hs.
  assert (K : forall e s',
             error (worker (delegated m stream_num e s')) = error (worker m)
             /\ index (out_streams (worker (delegated m stream_num e s'))) stream_num
                = Some s'
             /\ others_untouched m (delegated m stream_num e s') stream_num
             /\ calls (delegated m stream_num e s') = calls m ++ [e]).
  { intros e s'. cbn. repeat split.
    - eapply index_assign_same; eauto.
    - intros j Hj. cbn. apply index_assign_other. congruence. }
  split; [|split].
  - intros field_name len term_type s' Hw.
    rewrite (worker_start_field_valid _ _ _ _ _ _ _ _ Hlt Hs Hw). cbn.
    eexists. split; [reflexivity | apply K].
  - intros s' Hw. rewrite (worker_end_field_valid _ _ _ _ _ Hlt Hs Hw). cbn.
    eexists. split; [reflexivity | apply K].
  - intros s' Hw. rewrite (worker_end_stream_valid _ _ _ _ _ Hlt Hs Hw). cbn.
    eexists. split; [reflexivity | apply K].
Qed.

Lemma wrapper_success_keeps_the_error_slot_witness :
  exists m',
    worker_end_field (ext := scripted 0 0 0 0 no_error) 0
      (mk_world (mk_worker 2 [idle_stream 7; idle_stream 8] broken_pipe) blank_session [])
    = Ok 0 m'
    /\ error (worker m') = broken_pipe.
Proof.
  destruct (wrapper_success_keeps_the_error_slot (scripted 0 0 0 0 no_error)
              (mk_world (mk_worker 2 [idle_stream 7; idle_stream 8] broken_pipe)
                        blank_session [])
              0 (idle_stream 7) ltac:(cbn; lia) eq_refl) as (_ & Hend & _).
  destruct (Hend (send (idle_stream 7) Byte.x02) eq_refl) as (m' & Hrun & He & _).
  exists m'. split; assumption.
Defined.

(** X11: the results the wrappers can return.  [worker_end_field] and
    [worker_end_stream] return only 0 or -1.  [worker_start_field]
    returns -1 on a rejected index and otherwise the code of
    [write_field_start] itself, unchanged, whatever its sign. *)
Theorem wrapper_return_codes :
  forall (ext : Externals) (m m' : world) (field_name : string)
         (len term_type stream_num r : Z),
    (worker_end_field stream_num m = Ok r m' -> r = 0 \/ r = -1)
    /\ (worker_end_stream stream_num m = Ok r m' -> r = 0 \/ r = -1)
    /\ (worker_start_field field_name len term_type stream_num m = Ok r m' ->
        (r = -1 /\ num_streams (worker m) <= stream_num)
        \/ (exists s, index (out_streams (worker m)) stream_num = Some s
                      /\ r = fst (write_field_start s field_name len term_type))).
Proof.
  intros ext m m' field_name len term_type stream_num r.
  split; [|split]; intros Hrun.
  - destruct (worker_end_field_cases m stream_num)
      as [(_ & E) | [(_ & _ & E) | [(s & rc & s' & _ & _ & _ & _ & E)
                                   | (s & s' & _ & _ & _ & E)]]];
      rewrite E in Hrun; try discriminate; injection Hrun as <- _; auto.
  - destruct (worker_end_stream_cases m stream_num)
      as [(_ & E) | [(_ & _ & E) | [(s & rc & s' & _ & _ & _ & _ & E)
                                   | (s & s' & _ & _ & _ & E)]]];
      rewrite E in Hrun; try discriminate; injection Hrun as <- _; auto.
  - destruct (worker_start_field_cases m field_name len term_type stream_num)
      as [(Hge & E) | [(_ & _ & E) | [(s & s' & _ & Hs & Hw & E)
                                     | (s & rc & s' & _ & Hs & Hw & _ & E)]]];
      rewrite E in Hrun; try discriminate; injection Hrun as <- _.
    + left. auto.
    + right. exists s. rewrite Hw. auto.
    + right. exists s. rewrite Hw. auto.
Qed.

Lemma wrapper_return_codes_witness :
  exists m',
    worker_start_field (ext := scripted 5 0 0 0 broken_pipe) "age" 3 1 0 start_world
    = Ok 5 m'
    /\ fst (write_field_start (Externals := scripted 5 0 0 0 broken_pipe)
                              (idle_stream 7) "age" 3 1) = 5.
Proof.
  exists (handed_over start_world 0
            (Call_write_field_start 0) (capture (idle_stream 7) broken_pipe)).
  split; [reflexivity|].
  destruct (wrapper_return_codes (scripted 5 0 0 0 broken_pipe) start_world
              (handed_over start_world 0
                 (Call_write_field_start 0) (capture (idle_stream 7) broken_pipe))
              "age"%string 3 1 0 5) as (_ & _ & Hstart).
  destruct (Hstart eq_refl) as [(H & _) | (s & Hs & Hr)].
  - discriminate H.
  - reflexivity.
Defined.

(** X12: a rejection never writes past the message buffer: for a buffer
    of at least one byte, the message each wrapper stores on an invalid
    index is the full text cut to at most [SIZE_ERR_STR - 1] characters,
    so it is shorter than the buffer, whatever the index and the count. *)
Theorem rejection_message_fits_the_buffer :
  forall (ext : Externals) (m : world) (field_name : string)
         (len term_type stream_num : Z),
    (0 < SIZE_ERR_STR)%nat ->
    num_streams (worker m) <= stream_num ->
    exists m1 m2 m3,
      worker_start_field field_name len term_type stream_num m = Ok (-1) m1
      /\ worker_end_field stream_num m = Ok (-1) m2
      /\ worker_end_stream stream_num m = Ok (-1) m3
      /\ str (error (worker m1))
         = substring 0 (SIZE_ERR_STR - 1)
                     (invalid_socket_long stream_num (num_streams (worker m)))
      /\ str (error (worker m2)) = substring 0 (SIZE_ERR_STR - 1) invalid_socket_short
      /\ str (error (worker m3)) = substring 0 (SIZE_ERR_STR - 1) invalid_socket_short
      /\ (String.length (str (error (worker m1))) < SIZE_ERR_STR)%nat
      /\ (String.length (str (error (worker m2))) < SIZE_ERR_STR)%nat
      /\ (String.length (str (error (worker m3))) < SIZE_ERR_STR)%nat.
Proof.
  intros ext m field_name len term_type stream_num Hsize Hge.
  rewrite worker_start_field_invalid, worker_end_field_invalid,
    worker_end_stream_invalid by assumption.
  do 3 eexists. repeat (split; [reflexivity|]). cbn.
  destruct SIZE_ERR_STR as [|n]; [lia|]. cbn [snprintf].
  replace (S n - 1)%nat with n by lia.
  repeat split;
    match goal with
    | |- (String.length (substring 0 n ?t) < S n)%nat =>
        pose proof (substring_length_le t n); lia
    end.
Qed.

Lemma rejection_message_fits_the_buffer_witness :
  exists m1,
    worker_start_field (ext := scripted 0 0 0 0 no_error) "age" 3 1 5 start_world
    = Ok (-1) m1
    /\ (String.length (str (error (worker m1))) < 256)%nat.
Proof.
  destruct (rejection_message_fits_the_buffer (scripted 0 0 0 0 no_error) start_world
              "age" 3 1 5 ltac:(cbn; lia) ltac:(cbn; lia))
    as (m1 & m2 & m3 & Hrun & _ & _ & _ & _ & _ & Hlen & _).
  exists m1. split; assumption.
Defined.

Lemma index_map_firstn {A B : Type} (f : A -> B) (a : list A) (k : nat) (i : Z) (x : A) :
  index a i = Some x -> i < Z.of_nat k -> index (map f (firstn k a)) i = Some (f x).
Proof.
  unfold index. destruct (Z.ltb_spec i 0); [discriminate|]. intros Hx Hk.
  rewrite nth_error_map, nth_error_firstn.
  destruct (Nat.ltb_spec (Z.to_nat i) k); [|lia]. now rewrite Hx.
Qed.

(** X13: [worker_init] followed by [worker_start_field] on an index
    below the count: the writer receives the stream [stream_init] made
    from that index's handle, and the wrapper reports the writer's code,
    handing a captured error over to the worker when the code is not 0. *)
Theorem worker_init_then_start_field :
  forall (ext : Externals) (socket_fds : list Z) (num_sockets : Z) (m : world)
         (field_name : string) (len term_type stream_num fd rc : Z)
         (s' : ftgs_outstream),
    num_sockets <= Z.of_nat (List.length socket_fds) ->
    stream_num < num_sockets ->
    index socket_fds stream_num = Some fd ->
    write_field_start (stream_init zero_stream fd) field_name len term_type = (rc, s') ->
    exists m1 m2,
      worker_init socket_fds num_sockets m = Ok tt m1
      /\ index (out_streams (worker m1)) stream_num = Some (stream_init zero_stream fd)
      /\ bind (worker_init socket_fds num_sockets)
              (fun _ => worker_start_field field_name len term_type stream_num) m
         = Ok rc m2
      /\ index (out_streams (worker m2)) stream_num
         = Some (if rc =? 0 then s' else set_stream_err_code s' 0)
      /\ error (worker m2) = (if rc =? 0 then error (worker m) else stream_err s')
      /\ others_untouched m1 m2 stream_num.
Proof.
  intros ext socket_fds num_sockets m field_name len term_type stream_num fd rc s'
         Hn Hlt Hfd Hw.
  unfold bind. rewrite worker_init_eq.
  destruct (Nat.leb_spec (Z.to_nat num_sockets) (List.length socket_fds)); [|lia].
  set (m1 := mk_world _ _ _).
  assert (Hs : index (out_streams (worker m1)) stream_num
               = Some (stream_init zero_stream fd)).
  { cbn. apply index_map_firstn; [assumption|].
    pose proof (index_Some_range _ _ _ Hfd). lia. }
  assert (Hlt1 : stream_num < num_streams (worker m1)) by (cbn; lia).
  exists m1. rewrite (worker_start_field_valid _ _ _ _ _ _ _ _ Hlt1 Hs Hw).
  destruct (Z.eqb_spec rc 0) as [->|Hrc]; eexists; (split; [reflexivity|]);
    (split; [exact Hs|]); (split; [reflexivity|]); cbn; repeat split;
    try (eapply index_assign_same; exact Hs);
    intros j Hj; cbn; apply index_assign_other; congruence.
Qed.

Lemma worker_init_then_start_field_witness :
  exists m2,
    bind (worker_init (ext := scripted 0 0 0 0 no_error) [7; 8] 2)
         (fun _ => worker_start_field (ext := scripted 0 0 0 0 no_error) "age" 3 1 1)
         (mk_world (mk_worker 0 [] no_error) blank_session [])
    = Ok 0 m2
    /\ index (out_streams (worker m2)) 1 = Some (send (idle_stream 8) Byte.x01).
Proof.
  destruct (worker_init_then_start_field (scripted 0 0 0 0 no_error) [7; 8] 2
              (mk_world (mk_worker 0 [] no_error) blank_session [])
              "age" 3 1 1 8 0 (send (idle_stream 8) Byte.x01)
              ltac:(cbn; lia) ltac:(lia) eq_refl eq_refl)
    as (m1 & m2 & _ & _ & Hrun & Hs & _).
  exists m2. split; assumption.
Defined.

(** X14: on a worker whose stream count is the extent of its array,
    [worker_destroy] returns, having called [stream_destroy] exactly once
    on every index of the array, in ascending order from 0 and on no
    other index.  Its loop leaves each stream as [stream_destroy] left
    it, in place; then the array is freed, with the stream count, the
    error slot and the session as they were. *)
Theorem worker_destroy_releases_every_stream :
  forall (stream_destroy : ftgs_outstream -> ftgs_outstream) (m : world),
    worker_ok (worker m) ->
    worker_destroy_loop stream_destroy (Z.to_nat (num_streams (worker m))) 0 m
    = Ok tt (mk_world (set_out_streams (worker m)
                         (map stream_destroy (out_streams (worker m))))
                      (session m)
                      (calls m ++ map Call_stream_destroy
                                      (indices 0 (List.length (out_streams (worker m))))))
    /\ worker_destroy stream_destroy m
       = Ok tt (mk_world (mk_worker (num_streams (worker m)) [] (error (worker m)))
                         (session m)
                         (calls m ++ map Call_stream_destroy
                                         (indices 0 (List.length (out_streams (worker m)))))).
Proof.
  intros stream_destroy m Hok. unfold worker_ok in Hok.
  assert (Hn : Z.to_nat (num_streams (worker m)) = List.length (out_streams (worker m)))
    by lia.
  split.
  - change 0 with (Z.of_nat (List.length (@nil ftgs_outstream))).
    rewrite worker_destroy_loop_run with (rest := out_streams (worker m))
      by reflexivity.
    rewrite Hn, Nat.leb_refl, firstn_all, skipn_all, app_nil_r.
    reflexivity.
  - rewrite worker_destroy_eq, Hn, Nat.leb_refl. reflexivity.
Qed.

Lemma worker_destroy_releases_every_stream_witness :
  worker_ok (worker start_world)
  /\ worker_destroy_loop (fun s => capture s broken_pipe) 2 0 start_world
     = Ok tt (mk_world (mk_worker 2 [capture (idle_stream 7) broken_pipe;
                                     capture (idle_stream 8) broken_pipe] no_error)
                       blank_session [Call_stream_destroy 0; Call_stream_destroy 1])
  /\ worker_destroy (fun s => capture s broken_pipe) start_world
     = Ok tt (mk_world (mk_worker 2 [] no_error) blank_session
                       [Call_stream_destroy 0; Call_stream_destroy 1]).
Proof.
  split; [reflexivity|].
  exact (worker_destroy_releases_every_stream (fun s => capture s broken_pipe)
           start_world eq_refl).
Defined.

(** X15: [worker_destroy] trusts the stream count: when the count
    exceeds the extent of the array, the loop reads one past its last
    stream. *)
Theorem worker_destroy_runs_off_a_short_array :
  forall (stream_destroy : ftgs_outstream -> ftgs_outstream) (m : world),
    Z.of_nat (List.length (out_streams (worker m))) < num_streams (worker m) ->
    worker_destroy stream_destroy m
    = OutOfBounds (Z.of_nat (List.length (out_streams (worker m)))).
Proof.
  intros stream_destroy m H. rewrite worker_destroy_eq.
  destruct (Nat.leb_spec (Z.to_nat (num_streams (worker m)))
                         (List.length (out_streams (worker m)))); [lia | reflexivity].
Qed.

Lemma worker_destroy_runs_off_a_short_array_witness :
  worker_destroy (fun s => s)
                 (mk_world (mk_worker 3 [idle_stream 7] no_error) blank_session [])
  = OutOfBounds 1.
Proof.
  exact (worker_destroy_runs_off_a_short_array (fun s => s)
           (mk_world (mk_worker 3 [idle_stream 7] no_error) blank_session [])
           ltac:(cbn; lia)).
Defined.

(** X16: [worker_destroy] frees the array but leaves [num_streams] as it
    was.  After it, on a worker that had at least one stream, every
    index below the count still passes the check of the three wrappers,
    which then index the freed array; a second [worker_destroy] does the
    same at index 0.  Only indices at or above the count are still
    rejected. *)
Theorem worker_destroy_leaves_a_stale_count :
  forall (ext : Externals) (stream_destroy : ftgs_outstream -> ftgs_outstream)
         (m : world),
    worker_ok (worker m) ->
    0 < num_streams (worker m) ->
    exists m1,
      worker_destroy stream_destroy m = Ok tt m1
      /\ num_streams (worker m1) = num_streams (worker m)
      /\ out_streams (worker m1) = []
      /\ ~ worker_ok (worker m1)
      /\ worker_destroy stream_destroy m1 = OutOfBounds 0
      /\ (forall field_name len term_type stream_num,
             stream_num < num_streams (worker m) ->
             worker_start_field field_name len term_type stream_num m1
             = OutOfBounds stream_num
             /\ worker_end_field stream_num m1 = OutOfBounds stream_num
             /\ worker_end_stream stream_num m1 = OutOfBounds stream_num).
Proof.
  intros ext stream_destroy m Hok Hpos.
  destruct (worker_destroy_releases_every_stream stream_destroy m Hok) as [_ Hrun].
  eexists. split; [exact Hrun|].
  split; [reflexivity|]. split; [reflexivity|]. split; [|split].
  - unfold worker_ok. cbn. lia.
  - rewrite worker_destroy_eq. cbn [worker out_streams num_streams List.length].
    destruct (Nat.leb_spec (Z.to_nat (num_streams (worker m))) 0); [lia | reflexivity].
  - intros field_name len term_type stream_num Hlt.
    assert (Hnone : index (@nil ftgs_outstream) stream_num = None).
    { destruct (Z_lt_le_dec stream_num 0);
        [now apply index_negative | apply index_beyond; cbn; lia]. }
    repeat split.
    + apply worker_start_field_outside; assumption.
    + apply worker_end_field_outside; assumption.
    + apply worker_end_stream_outside; assumption.
Qed.

Lemma worker_destroy_leaves_a_stale_count_witness :
  worker_ok (worker start_world)
  /\ 0 < num_streams (worker start_world)
  /\ exists m1,
      worker_destroy (fun s => s) start_world = Ok tt m1
      /\ worker_end_field (ext := scripted 0 0 0 0 no_error) 1 m1 = OutOfBounds 1
      /\ worker_destroy (fun s => s) m1 = OutOfBounds 0.
Proof.
  split; [reflexivity|]. split; [cbn; lia|].
  destruct (worker_destroy_leaves_a_stale_count (scripted 0 0 0 0 no_error) (fun s => s)
              start_world eq_refl ltac:(cbn; lia))
    as (m1 & Hrun & _ & _ & _ & Hagain & Huse).
  exists m1. split; [exact Hrun|]. split; [|exact Hagain].
  exact (proj1 (proj2 (Huse ""%string 0 0 1 ltac:(cbn; lia)))).
Defined.

(** X20: [worker_init] followed by [worker_destroy] always returns when
    there are at least [num_sockets] handles.  The calls made are one
    [stream_init] per index in ascending order, then one
    [stream_destroy] per index in the same order and on the same
    indices: every stream that was initialised is destroyed, once.  The
    loop of [worker_destroy] leaves in place [stream_destroy] of each
    stream [worker_init] made; the array is then freed with the count
    left at [num_sockets]. *)
Theorem worker_init_then_destroy :
  forall (ext : Externals) (stream_destroy : ftgs_outstream -> ftgs_outstream)
         (socket_fds : list Z) (num_sockets : Z) (m : world),
    num_sockets <= Z.of_nat (List.length socket_fds) ->
    exists m1,
      worker_init socket_fds num_sockets m = Ok tt m1
      /\ worker_destroy_loop stream_destroy (Z.to_nat (num_streams (worker m1))) 0 m1
         = Ok tt (mk_world
                    (set_out_streams (worker m1)
                       (map stream_destroy
                            (map (stream_init zero_stream)
                                 (firstn (Z.to_nat num_sockets) socket_fds))))
                    (session m)
                    (calls m
                       ++ map Call_stream_init (indices 0 (Z.to_nat num_sockets))
                       ++ map Call_stream_destroy (indices 0 (Z.to_nat num_sockets))))
      /\ bind (worker_init socket_fds num_sockets)
              (fun _ => worker_destroy stream_destroy) m
         = Ok tt (mk_world (mk_worker num_sockets [] (error (worker m)))
                    (session m)
                    (calls m
                       ++ map Call_stream_init (indices 0 (Z.to_nat num_sockets))
                       ++ map Call_stream_destroy (indices 0 (Z.to_nat num_sockets)))).
Proof.
  intros ext stream_destroy socket_fds num_sockets m H.
  unfold bind. rewrite worker_init_eq.
  destruct (Nat.leb_spec (Z.to_nat num_sockets) (List.length socket_fds)); [|lia].
  set (m1 := mk_world _ _ _). exists m1. split; [reflexivity|].
  assert (Hlen : List.length (out_streams (worker m1)) = Z.to_nat num_sockets).
  { cbn. rewrite length_map, length_firstn. lia. }
  assert (Hn : Z.to_nat (num_streams (worker m1))
               = List.length (out_streams (worker m1))).
  { rewrite Hlen. reflexivity. }
  split.
  - change 0 with (Z.of_nat (List.length (@nil ftgs_outstream))).
    rewrite worker_destroy_loop_run with (rest := out_streams (worker m1))
      by reflexivity.
    rewrite Hn, Nat.leb_refl, firstn_all, skipn_all, app_nil_r, Hlen.
    cbn. now rewrite <- app_assoc.
  - rewrite worker_destroy_eq, Hn, Nat.leb_refl, Hlen. cbn. now rewrite <- app_assoc.
Qed.

Lemma worker_init_then_destroy_witness :
  2 <= Z.of_nat (List.length [7; 8])
  /\ bind (worker_init (ext := scripted 0 0 0 0 no_error) [7; 8] 2)
          (fun _ => worker_destroy (fun s => s))
          (mk_world (mk_worker 0 [] no_error) blank_session [])
     = Ok tt (mk_world (mk_worker 2 [] no_error) blank_session
                       [Call_stream_init 0; Call_stream_init 1;
                        Call_stream_destroy 0; Call_stream_destroy 1]).
Proof.
  split; [cbn; lia|].
  destruct (worker_init_then_destroy (scripted 0 0 0 0 no_error) (fun s => s) [7; 8] 2
              (mk_world (mk_worker 0 [] no_error) blank_session []) ltac:(cbn; lia))
    as (m1 & _ & _ & Hboth).
  exact Hboth.
Defined.

End WorkerExtras.

(* ===================================================================== *)
(** ** Further properties of the session and of the pass *)
(* ===================================================================== *)

Module SessionExtras.
Import LocalSession LocalSessionFacts.

(** X17: [session_init] overwrites every field of the session, and
    [n_stats] reaches the [num_stats] field only: two initialisations
    with the same group count, flag and sample table give the same
    tables, ring buffer and dirty-group array whatever the sessions held
    before and whatever the two stat counts are. *)
Theorem session_init_depends_on_counts_and_sample_only :
  forall (s1 s2 : session_desc) (G S1 S2 flag : Z) (sample_table : packed_table),
    session_init s1 G S1 flag sample_table
    = set_num_stats (session_init s2 G S2 flag sample_table) S1
    /\ grp_stats (session_init s1 G S1 flag sample_table)
       = grp_stats (session_init s2 G S2 flag sample_table)
    /\ temp_buf (session_init s1 G S1 flag sample_table)
       = temp_buf (session_init s2 G S2 flag sample_table)
    /\ grp_buf (session_init s1 G S1 flag sample_table)
       = grp_buf (session_init s2 G S2 flag sample_table)
    /\ nz_grps_buf (session_init s1 G S1 flag sample_table)
       = nz_grps_buf (session_init s2 G S2 flag sample_table).
Proof.
  intros s1 s2 G S1 S2 flag sample_table. repeat split.
Qed.

(** X18: [session_init] does not check the group count.  A negative
    count is stored as given, and the dirty-group array is then the null
    pointer, [calloc] having been asked for a negative number of
    elements; the scratch table and the ring buffer keep their fixed
    sizes. *)
Theorem session_init_negative_group_count :
  forall (session : session_desc) (G S flag : Z) (sample_table : packed_table),
    G < 0 ->
    num_groups (session_init session G S flag sample_table) = G
    /\ nz_grps_buf (session_init session G S flag sample_table) = None
    /\ ut_num_rows (temp_buf (session_init session G S flag sample_table))
       = PREFETCH_BUFFER_SIZE
    /\ cb_capacity (grp_buf (session_init session G S flag sample_table))
       = CIRC_BUFFER_SIZE.
Proof.
  intros session G S flag sample_table HG.
  unfold session_init, allocate_grp_stats. cbn. repeat split.
  unfold calloc_uint32. destruct (Z.ltb_spec G 0); [reflexivity | lia].
Qed.

Lemma session_init_negative_group_count_witness :
  -1 < 0
  /\ nz_grps_buf (session_init blank_session (-1) 2 0 (mk_packed [4; 8] [])) = None.
Proof.
  split; [lia|].
  exact (proj1 (proj2 (session_init_negative_group_count blank_session (-1) 2 0
                         (mk_packed [4; 8] []) ltac:(lia)))).
Defined.

End SessionExtras.

Module PassExtras.
Import LocalSession LocalSessionFacts.

(** X19: [run_tgs_pass] itself writes nothing but the worker's error
    slot: whenever it returns, its result is the code of the
    accumulation pass, the session and the whole stream array are what
    the pass left (an error captured on a stream is still on it, code
    and message), the stream count is what the pass left, and the calls
    made are the seven of one pass after those made before. *)
Theorem run_tgs_pass_writes_only_the_error_slot :
  forall (ext : Externals) (m m' : world)
         (term_type int_term : Z) (string_term : string) (string_term_len : Z)
         (addresses : list string) (docs_per_shard : list Z)
         (shards : list packed_table) (num_shard stream_num r : Z)
         (desc : tgs_desc term_s) (err : Z) (w' : worker_desc) (s' : session_desc),
    desc = pass_desc m term_type int_term string_term string_term_len addresses
                     docs_per_shard shards num_shard stream_num ->
    tgs_execute_pass (worker m) (session m) desc = (err, w', s') ->
    run_tgs_pass term_type int_term string_term string_term_len addresses
                 docs_per_shard shards num_shard stream_num m = Ok r m' ->
    r = err
    /\ out_streams (worker m') = out_streams w'
    /\ num_streams (worker m') = num_streams w'
    /\ session m' = s'
    /\ calls m' = calls m ++ pass_calls term_type stream_num (stream desc)
    /\ (r = 0 -> worker m' = w').
Proof.
  intros ext m m' term_type int_term string_term string_term_len addresses
         docs_per_shard shards num_shard stream_num r desc err w' s' Hd Hp.
  rewrite (run_tgs_pass_eq _ _ _ _ _ _ _ _ _ _ _ _ _ _ Hd Hp).
  destruct (Z.eqb_spec err 0) as [E|E].
  - intros H. injection H as <- <-. cbn. repeat split.
  - destruct (index (out_streams w') (stream desc)) as [st|]; [|discriminate].
    intros H. injection H as <- <-. cbn. unfold after_failure.
    destruct (code (stream_err st) =? 0); cbn; repeat split; intros; contradiction.
Qed.

Lemma run_tgs_pass_writes_only_the_error_slot_witness :
  run_tgs_pass (ext := scripted 0 0 0 (-1) broken_pipe) 1 42 "" 0 [] [] [] 0 1
               start_world
  = Ok (-1) (mk_world (mk_worker 2 [idle_stream 7; capture (idle_stream 8) broken_pipe]
                                 broken_pipe)
                      blank_session (pass_calls 1 1 1))
  /\ out_streams
       (worker (mk_world (mk_worker 2 [idle_stream 7;
                                       capture (idle_stream 8) broken_pipe]
                                    broken_pipe)
                         blank_session (pass_calls 1 1 1)))
     = out_streams (mk_worker 2 [idle_stream 7; capture (idle_stream 8) broken_pipe]
                              no_error).
Proof.
  split; [reflexivity|].
  exact (proj1 (proj2
           (run_tgs_pass_writes_only_the_error_slot
              (scripted 0 0 0 (-1) broken_pipe) start_world
              (mk_world (mk_worker 2 [idle_stream 7; capture (idle_stream 8) broken_pipe]
                                   broken_pipe)
                        blank_session (pass_calls 1 1 1))
              1 42 ""%string 0 [] [] [] 0 1 (-1)
              (mk_tgs 42 1 [] [] [] 0 1) (-1)
              (mk_worker 2 [idle_stream 7; capture (idle_stream 8) broken_pipe] no_error)
              blank_session eq_refl eq_refl eq_refl))).
Defined.

End PassExtras.
